(** * The LightGBM command-line scoring component

    A shallow embedding of [src/scripts/lightgbm_cli/score.py]: the
    argument parser declaration, [run] and [main], over an explicit model of
    what the script touches of its environment (the file system, the
    operating system's process launcher, standard output).

    Python values are embedded as follows.
    - [str] is [string]; an attribute that may be [None] is [option string].
    - The [argparse] namespace is the record [Namespace].
    - Effects are threaded through the monad [M]: a computation reads a
      [world], and yields an [outcome] (normal return, raised exception, or
      blocked for ever), the world it leaves behind and the [event]s it
      emitted, oldest first.
    - What the operating system decides (whether a command starts and how
      it ends, whether directories can be made, how bytes decode in the
      locale) is part of the [world]: a result about every world holds for
      whatever system the script runs on.  Standard output is taken to
      accept every line printed. *)

From Stdlib Require Import ZArith String Ascii List DecimalString.
From stdpp Require Import base option gmap strings.
Import ListNotations.

Local Open Scope string_scope.
Local Open Scope Z_scope.
Local Open Scope list_scope.

(** ** Python strings *)

Module Py.

(** [str(x)] inside an f-string, for an attribute that is a string or [None]. *)
Definition str (o : option string) : string :=
  match o with
  | Some s => s
  | None => "None"
  end.

(** [str(n)] for an integer. *)
Definition str_int (n : Z) : string := NilZero.string_of_int (Z.to_int n).

(** Truth value of a string-or-[None]: [None] and the empty string are false. *)
Definition truthy (o : option string) : bool :=
  match o with
  | Some EmptyString => false
  | Some _ => true
  | None => false
  end.

(** [sep.join(parts)]. *)
Definition join (sep : string) (parts : list string) : string :=
  String.concat sep parts.

(** [s.startswith(p)]. *)
Definition startswith (s p : string) : bool := String.prefix p s.

(** [s.endswith("/")]. *)
Fixpoint endswith_sep (s : string) : bool :=
  match s with
  | EmptyString => false
  | String c EmptyString => Ascii.eqb c "/"
  | String _ rest => endswith_sep rest
  end.

(** [s.split(" ")]: the pieces between single spaces (never an empty list). *)
Fixpoint split_spaces (s : string) : list string :=
  match s with
  | EmptyString => [EmptyString]
  | String c rest =>
      if Ascii.eqb c " " then EmptyString :: split_spaces rest
      else
        match split_spaces rest with
        | piece :: pieces => String c piece :: pieces
        | [] => [String c EmptyString]
        end
  end.

(** The text of a captured stream once decoded, with universal newlines:
    [data.replace("\r\n", "\n").replace("\r", "\n")]. *)
Definition CR : ascii := ascii_of_nat 13.
Definition LF : ascii := ascii_of_nat 10.

Fixpoint translate_newlines (s : string) : string :=
  match s with
  | EmptyString => EmptyString
  | String c rest =>
      if Ascii.eqb c CR then
        match rest with
        | String c' rest' =>
            if Ascii.eqb c' LF then String LF (translate_newlines rest')
            else String LF (translate_newlines rest)
        | EmptyString => String LF EmptyString
        end
      else String c (translate_newlines rest)
  end.

(** [" " in s]. *)
Fixpoint has_space (s : string) : bool :=
  match s with
  | EmptyString => false
  | String c rest => (Ascii.eqb c " " || has_space rest)%bool
  end.

End Py.

(** ** The environment *)

(** What a path names.  Paths are compared as they are written. *)
Inductive node := File | Dir.

(** The exceptions that can cross [run]. *)
Inductive exn :=
| Exception (msg : string)
| FileExistsError (path : string)
| FileNotFoundError (path : string)
| NotADirectoryError (path : string)
| PermissionError (path : string)
| OSError (cmd : string)
| UnicodeDecodeError (data : string)
| ArgumentError (conflicts : list string)
| CalledProcessError (cmd : string) (code : Z)
| TimeoutExpired (cmd : string) (timeout : nat)
| SystemExit (code : Z).

(** The result object of [subprocess.run]. *)
Record CompletedProcess := {
  stdout : option string;
  stderr : option string;
  returncode : Z
}.

(** What the operating system does with a command string: it cannot start the
    program, or the program runs for ever, or it exits after [ticks] units of
    time having written the bytes [out] and [err] and returning [code]. *)
Inductive behaviour :=
| CannotStart
| RunsForever
| Exits (ticks : nat) (out err : string) (code : Z).

(** The errors of the operating system, and the exceptions Python makes of
    them for the path they are about. *)
Inductive os_error := EEXIST | ENOTDIR | EACCES | ENOENT | EOTHER.

Definition os_error_exn (err : os_error) (path : string) : exn :=
  match err with
  | EEXIST => FileExistsError path
  | ENOTDIR => NotADirectoryError path
  | EACCES => PermissionError path
  | ENOENT => FileNotFoundError path
  | EOTHER => OSError path
  end.

(** What the operating system does when [os.makedirs] asks for a directory
    that does not exist: the call returns, having made these directories on
    the way (the missing ancestors), or a [mkdir] fails at some path,
    possibly after directories were made (under a regular file, for want of
    permission, or for any other reason of the system). *)
Inductive makedirs_answer :=
| Creates (made : list string)
| Fails (made : list string) (err : os_error) (path : string).

(** The part of the machine the script can see: the file system (what each
    path, as written, names), what the system answers to [os.makedirs] in a
    given file system, the launcher ([subprocess.run] hands it the command
    as one string, and what program that string names is the platform's
    affair), the decoder of the locale's encoding ([None] where the bytes
    do not decode), and [sys.argv]. *)
Record world := {
  fs : gmap string node;
  os_mkdir : gmap string node -> string -> makedirs_answer;
  os_exec : string -> behaviour;
  locale_decode : string -> option string;
  sys_argv : list string
}.

(** The world with another file system. *)
Definition set_fs (w : world) (m : gmap string node) : world :=
  {| fs := m; os_mkdir := os_mkdir w; os_exec := os_exec w;
     locale_decode := locale_decode w; sys_argv := sys_argv w |}.

(** What an invocation does that can be observed from outside. *)
Inductive event :=
| Mkdir (path : string)
| Print (line : string)
| TimeBlockEnter (name : string)
| TimeBlockExit (name : string)
| SubprocessRun (cmd : string) (check : bool) (timeout : option nat)
| ProcessStarted (cmd : string)
| ProcessKilled (cmd : string)
| ProcessExited (cmd : string) (code : Z).

(** ** The effect monad *)

Inductive outcome (A : Type) :=
| Returned (a : A)
| Raised (e : exn)
| Blocked.
Arguments Returned {A} a.
Arguments Raised {A} e.
Arguments Blocked {A}.

Record result (A : Type) := {
  out : outcome A;
  final : world;
  events : list event
}.
Arguments out {A} r.
Arguments final {A} r.
Arguments events {A} r.

Definition M (A : Type) : Type := world -> result A.

Definition ret {A} (a : A) : M A :=
  fun w => {| out := Returned a; final := w; events := [] |}.

Definition raise {A} (e : exn) : M A :=
  fun w => {| out := Raised e; final := w; events := [] |}.

Definition block {A} : M A :=
  fun w => {| out := Blocked; final := w; events := [] |}.

Definition emit (e : event) : M unit :=
  fun w => {| out := Returned tt; final := w; events := [e] |}.

Definition bind {A B} (m : M A) (k : A -> M B) : M B :=
  fun w =>
    match m w with
    | {| out := Returned a; final := w1; events := ev |} =>
        match k a w1 with
        | {| out := o; final := w2; events := ev' |} =>
            {| out := o; final := w2; events := ev ++ ev' |}
        end
    | {| out := Raised e; final := w1; events := ev |} =>
        {| out := Raised e; final := w1; events := ev |}
    | {| out := Blocked; final := w1; events := ev |} =>
        {| out := Blocked; final := w1; events := ev |}
    end.

(** A pure step that may raise. *)
Definition lift {A} (r : exn + A) : M A :=
  match r with
  | inl e => raise e
  | inr a => ret a
  end.

Notation "x <- m ;; k" := (bind m (fun x => k))
  (at level 100, m at next level, right associativity).
Notation "m ;;; k" := (bind m (fun _ => k))
  (at level 100, right associativity).

(** ** The library calls the script makes *)

(** [print(line)]. *)
Definition print (line : string) : M unit := emit (Print line).

(** Does the path name a regular file, a directory, in this file system? *)
Definition is_file (m : gmap string node) (p : string) : bool :=
  match m !! p with
  | Some File => true
  | _ => false
  end.

Definition is_dir (m : gmap string node) (p : string) : bool :=
  match m !! p with
  | Some Dir => true
  | _ => false
  end.

(** [os.path.isfile(p)]. *)
Definition os_path_isfile (p : string) : M bool :=
  fun w => ret (is_file (fs w) p) w.

(** [os.path.isdir(p)]. *)
Definition os_path_isdir (p : string) : M bool :=
  fun w => ret (is_dir (fs w) p) w.

(** One directory comes into being, unless the path names something
    already. *)
Definition make_dir (d : string) : M unit :=
  fun w =>
    match fs w !! d with
    | None => {| out := Returned tt; final := set_fs w (<[d := Dir]> (fs w));
                 events := [Mkdir d] |}
    | Some _ => ret tt w
    end.

Fixpoint make_dirs (dirs : list string) : M unit :=
  match dirs with
  | [] => ret tt
  | d :: rest => make_dir d ;;; make_dirs rest
  end.

(** [os.makedirs(name, exist_ok=...)].  The empty path is refused.  A
    directory that exists is accepted when [exist_ok] is set, and nothing
    changes.  Where [name] is a regular file the call raises, the error of
    the system if it names one, [FileExistsError] otherwise.  Where [name]
    does not exist the system decides: the call raises its error, or it
    returns having made the missing ancestors and then [name] itself. *)
Definition os_makedirs (name : string) (exist_ok : bool) : M unit :=
  fun w =>
    match name with
    | EmptyString => raise (FileNotFoundError name) w
    | _ =>
        match fs w !! name with
        | Some Dir =>
            if exist_ok then ret tt w else raise (FileExistsError name) w
        | Some File =>
            match os_mkdir w (fs w) name with
            | Fails _ err path => raise (os_error_exn err path) w
            | Creates _ => raise (FileExistsError name) w
            end
        | None =>
            match os_mkdir w (fs w) name with
            | Fails made err path =>
                (make_dirs made ;;; raise (os_error_exn err path)) w
            | Creates made => make_dirs (made ++ [name]) w
            end
        end
    end.

(** [os.path.join(a, b)], POSIX flavour. *)
Definition os_path_join (a b : string) : string :=
  if Py.startswith b "/" then b
  else if (String.eqb a "" || Py.endswith_sep a)%bool then a +:+ b
  else a +:+ "/" +:+ b.

(** What [communicate] makes of the bytes of a captured stream: the bytes
    themselves in binary mode, the decoded text with its newlines
    translated in text mode, or no text where the bytes do not decode. *)
Definition captured (universal_newlines : bool)
    (decode : string -> option string) (raw : string) : option string :=
  if universal_newlines
  then option_map Py.translate_newlines (decode raw)
  else Some raw.

(** [subprocess.run(cmd, stdout=.., stderr=.., universal_newlines=..,
    check=.., timeout=..)] with [cmd] a single string.  [pipe_out] and
    [pipe_err] say whether the stream is captured ([PIPE]).  Once the
    process has exited the captured streams are decoded, standard output
    first, and bytes that do not decode raise [UnicodeDecodeError]; only
    then is the exit code looked at. *)
Definition subprocess_run (cmd : string) (pipe_out pipe_err : bool)
    (universal_newlines : bool) (check : bool) (timeout : option nat)
  : M CompletedProcess :=
  emit (SubprocessRun cmd check timeout) ;;;
  (fun w =>
     match os_exec w cmd with
     | CannotStart => raise (OSError cmd) w
     | RunsForever =>
         match timeout with
         | None => (emit (ProcessStarted cmd) ;;; block) w
         | Some t =>
             (emit (ProcessStarted cmd) ;;; emit (ProcessKilled cmd) ;;;
              raise (TimeoutExpired cmd t)) w
         end
     | Exits ticks o e code =>
         let expired :=
           match timeout with
           | None => None
           | Some t => if (t <? ticks)%nat then Some t else None
           end in
         match expired with
         | Some t =>
             (emit (ProcessStarted cmd) ;;; emit (ProcessKilled cmd) ;;;
              raise (TimeoutExpired cmd t)) w
         | None =>
             (emit (ProcessStarted cmd) ;;; emit (ProcessExited cmd code) ;;;
              text_out <-
                (if pipe_out then
                   match captured universal_newlines (locale_decode w) o with
                   | Some text => ret (Some text)
                   | None => raise (UnicodeDecodeError o)
                   end
                 else ret None) ;;
              text_err <-
                (if pipe_err then
                   match captured universal_newlines (locale_decode w) e with
                   | Some text => ret (Some text)
                   | None => raise (UnicodeDecodeError e)
                   end
                 else ret None) ;;
              if (check && negb (code =? 0))%bool
              then raise (CalledProcessError cmd code)
              else ret {| stdout := text_out; stderr := text_err;
                          returncode := code |}) w
         end
     end).

(** Modelled from the spec: [LogTimeBlock] is defined in [common.metrics],
    which is not among the sources.  The specification describes it as a
    timing scope with guaranteed release around the call: entry is logged,
    the body runs, and exit is logged on every path that leaves the body,
    an exception of the body being passed on.  The measured duration is not
    modelled. *)
Definition LogTimeBlock {A} (name : string) (methods : list string)
    (tags : list (string * string)) (body : M A) : M A :=
  emit (TimeBlockEnter name) ;;;
  (fun w =>
     match body w with
     | {| out := Blocked; final := w1; events := ev |} =>
         {| out := Blocked; final := w1; events := ev |}
     | {| out := o; final := w1; events := ev |} =>
         {| out := o; final := w1; events := ev ++ [TimeBlockExit name] |}
     end).

(** ** The script *)

(** The namespace [argparse] hands to [run].  [--model] and [--output] are
    optional; an omitted one is [None]. *)
Record Namespace := {
  lightgbm_exec : string;
  data : string;
  model : option string;
  output : option string
}.

(** [args.output = v]. *)
Definition set_output (args : Namespace) (v : option string) : Namespace :=
  {| lightgbm_exec := lightgbm_exec args;
     data := data args;
     model := model args;
     output := v |}.

(** The declaration of a command-line option, and a parser as the list of
    the options it holds. *)
Inductive arg_type := type_str | type_input_file_path.
Inductive arg_action := action_store | action_help.
Inductive arg_default_value := default_None | default_SUPPRESS.

Record Argument := {
  arg_group : option string;
  arg_flags : list string;
  arg_action_of : arg_action;
  arg_required : bool;
  arg_type_of : arg_type;
  arg_default : arg_default_value;
  arg_help : string
}.

(** What a parser does with an option string it answers to already
    ([conflict_handler]): refuse it, the default, or let the new option
    take it over. *)
Inductive conflict_handler := conflict_error | conflict_resolve.

Record ArgumentParser := {
  prog : string;
  conflict_handler_of : conflict_handler;
  arguments : list Argument
}.

(** The option strings a parser answers to. *)
Definition option_strings (parser : ArgumentParser) : list string :=
  concat (map arg_flags (arguments parser)).

(** [argparse.ArgumentParser(name)]: the first positional parameter is the
    program name, and a new parser holds the help option. *)
Definition new_ArgumentParser (name : string) : ArgumentParser :=
  {| prog := name;
     conflict_handler_of := conflict_error;
     arguments :=
       [ {| arg_group := None; arg_flags := ["-h"; "--help"];
            arg_action_of := action_help; arg_required := false;
            arg_type_of := type_str; arg_default := default_SUPPRESS;
            arg_help := "show this help message and exit" |} ] |}.

(** The option with other option strings. *)
Definition with_flags (a : Argument) (flags : list string) : Argument :=
  {| arg_group := arg_group a; arg_flags := flags;
     arg_action_of := arg_action_of a; arg_required := arg_required a;
     arg_type_of := arg_type_of a; arg_default := arg_default a;
     arg_help := arg_help a |}.

Definition is_among (flags : list string) (flag : string) : bool :=
  existsb (String.eqb flag) flags.

(** [_handle_conflict_resolve]: the option strings in conflict are taken
    from the options that hold them, and an option left with none is
    removed from the parser. *)
Definition resolve_conflicts (conflicts : list string) (held : list Argument)
  : list Argument :=
  flat_map
    (fun b =>
       match List.filter (is_among conflicts) (arg_flags b) with
       | [] => [b]
       | _ =>
           match List.filter (fun flag => negb (is_among conflicts flag))
                             (arg_flags b) with
           | [] => []
           | remaining => [with_flags b remaining]
           end
       end) held.

(** [group.add_argument(...)]: the option is added after the ones held.
    An option string the parser answers to already is a conflict: under
    the default handler [ArgumentError] is raised, with every such string
    of the new option; under [resolve] the strings are taken over.  A group
    shares the option strings and the handler of its parser. *)
Definition add_argument (parser : ArgumentParser) (a : Argument)
  : exn + ArgumentParser :=
  match List.filter (is_among (option_strings parser)) (arg_flags a) with
  | [] => inr {| prog := prog parser;
                 conflict_handler_of := conflict_handler_of parser;
                 arguments := arguments parser ++ [a] |}
  | conflicts =>
      match conflict_handler_of parser with
      | conflict_error => inl (ArgumentError conflicts)
      | conflict_resolve =>
          inr {| prog := prog parser;
                 conflict_handler_of := conflict_handler_of parser;
                 arguments := resolve_conflicts conflicts (arguments parser)
                              ++ [a] |}
      end
  end.

(** Sequencing of steps that may raise. *)
Definition and_then {A B} (r : exn + A) (k : A -> exn + B) : exn + B :=
  match r with
  | inl e => inl e
  | inr a => k a
  end.

Definition newline : string := String (ascii_of_nat 10) EmptyString.

(** The module's docstring. *)
Definition __doc__ : string :=
  newline +:+ "LightGBM/Python inferencing script" +:+ newline.

(** [get_arg_parser], lines 26-52. *)
Definition get_arg_parser (parser : option ArgumentParser)
  : exn + ArgumentParser :=
  let parser :=
    match parser with
    | None => new_ArgumentParser __doc__
    | Some p => p
    end in
  let group_i := Some "Input Data" in
  and_then (add_argument parser
    {| arg_group := group_i; arg_flags := ["--lightgbm_exec"];
       arg_action_of := action_store; arg_required := true;
       arg_type_of := type_str; arg_default := default_None;
       arg_help := "Path to lightgbm.exe (file path)" |}) (fun parser =>
  and_then (add_argument parser
    {| arg_group := group_i; arg_flags := ["--data"];
       arg_action_of := action_store; arg_required := true;
       arg_type_of := type_input_file_path; arg_default := default_None;
       arg_help := "Inferencing data location (file path)" |}) (fun parser =>
  and_then (add_argument parser
    {| arg_group := group_i; arg_flags := ["--model"];
       arg_action_of := action_store; arg_required := false;
       arg_type_of := type_input_file_path; arg_default := default_None;
       arg_help := "Exported model location" |}) (fun parser =>
  and_then (add_argument parser
    {| arg_group := group_i; arg_flags := ["--output"];
       arg_action_of := action_store; arg_required := false;
       arg_type_of := type_str; arg_default := default_None;
       arg_help := "Inferencing output location (file path)" |}) (fun parser =>
  inr parser)))).

(** Lines 63-65: when [args.output] is true, create the directory and
    replace [args.output] by the path of the predictions file in it. *)
Definition prepare_output (args : Namespace) : M Namespace :=
  match output args with
  | Some (String _ _ as dir) =>
      os_makedirs dir true ;;;
      ret (set_output args (Some (os_path_join dir "predictions.txt")))
  | _ => ret args
  end.

(** Lines 67-68: the executable must be an existing file. *)
Definition check_exec (args : Namespace) : M unit :=
  found <- os_path_isfile (lightgbm_exec args) ;;
  if negb found
  then raise (Exception ("Could not find lightgbm exec under path "
                         +:+ lightgbm_exec args))
  else ret tt.

(** Lines 70-78: the value of the local list [lightgbm_cli_command] when it
    is handed to the process runner, from [args] as it stands at line 70. *)
Definition lightgbm_cli_command (args : Namespace) : list string :=
  let cmd :=
    [ lightgbm_exec args;
      "task=prediction";
      "data=" +:+ data args;
      "input_model=" +:+ Py.str (model args);
      "verbosity=2" ] in
  if Py.truthy (output args)
  then cmd ++ ["output_result=" +:+ Py.str (output args)]
  else cmd.

Definition metric_tags : list (string * string) :=
  [("framework", "lightgbm_cli"); ("task", "score")].

(** Lines 82-94: the call of the external tool inside the timing block. *)
Definition invoke (command : list string) : M unit :=
  print "Running .predict()" ;;;
  LogTimeBlock "inferencing" ["print"] metric_tags
    (lightgbm_cli_call <-
       subprocess_run (Py.join " " command) true true true false None ;;
     print ("LightGBM stdout: " +:+ Py.str (stdout lightgbm_cli_call)) ;;;
     print ("LightGBM stderr: " +:+ Py.str (stderr lightgbm_cli_call)) ;;;
     print ("LightGBM return code: "
            +:+ Py.str_int (returncode lightgbm_cli_call))).

(** [run], lines 55-94.  [args] is rebound where the source assigns to
    [args.output]; [other_args] is received and never read. *)
Definition run (args : Namespace) (other_args : list string) : M unit :=
  args <- prepare_output args ;;
  check_exec args ;;;
  invoke (lightgbm_cli_command args).

Section Main.

(** [parser.parse_known_args(tokens)] is the library's: it yields the
    namespace and the tokens it did not recognise, or leaves through
    [SystemExit]. *)
Variable parse_known_args :
  ArgumentParser -> list string -> M (Namespace * list string).

(** [main], lines 97-108.  With [cli_args=None] the parser reads
    [sys.argv[1:]]. *)
Definition main (cli_args : option (list string)) : M unit :=
  parser <- lift (get_arg_parser None) ;;
  parsed <- (fun w =>
               parse_known_args parser
                 (match cli_args with
                  | Some tokens => tokens
                  | None => tl (sys_argv w)
                  end) w) ;;
  run (fst parsed) (snd parsed).

End Main.

(** The exit status of the interpreter running the script: 0 when [main]
    returns, the code of a [SystemExit], 1 for any other exception that
    reaches the top level; none while the script is blocked. *)
Definition exit_status {A} (o : outcome A) : option Z :=
  match o with
  | Returned _ => Some 0
  | Raised (SystemExit code) => Some code
  | Raised _ => Some 1
  | Blocked => None
  end.

(** A small world to run the script in: an executable at
    [/opt/lightgbm], one data file, one model file, a system that makes
    directories the way a POSIX one does on plain absolute paths, a locale
    whose encoding is ASCII, and a tool that prints one line on each stream
    and exits with the code it is built with. *)
Module Demo.

Definition files : gmap string node :=
  list_to_map
    [ ("/opt", Dir); ("/opt/lightgbm", File);
      ("/data", Dir); ("/data/test.tsv", File); ("/data/model.txt", File);
      ("/etc", Dir); ("/etc/passwd", File);
      ("/tmp", Dir); ("/tmp/out", Dir) ].

(** The proper ancestors of a path, outermost first: what stands before
    each slash that is not at the front. *)
Fixpoint ancestors_from (seen rest : string) : list string :=
  match rest with
  | EmptyString => []
  | String c rest' =>
      if (Ascii.eqb c "/" && negb (String.eqb seen ""))%bool
      then seen :: ancestors_from (seen +:+ String c EmptyString) rest'
      else ancestors_from (seen +:+ String c EmptyString) rest'
  end.

Definition ancestors (path : string) : list string :=
  ancestors_from EmptyString path.

(** The ancestors are walked from the outermost: a missing one is made, and
    under one that is a regular file the next [mkdir] fails. *)
Fixpoint walk (m : gmap string node) (name : string) (made : list string)
    (dirs : list string) : makedirs_answer :=
  match dirs with
  | [] => Creates made
  | d :: rest =>
      match m !! d with
      | Some File => Fails made ENOTDIR (hd name rest)
      | Some Dir => walk m name made rest
      | None => walk m name (made ++ [d]) rest
      end
  end.

Definition mkdir (m : gmap string node) (name : string) : makedirs_answer :=
  walk m name [] (ancestors name).

Definition tool (code : Z) (cmd : string) : behaviour :=
  if Py.startswith cmd "/opt/lightgbm " then Exits 3 "A" "B" code
  else CannotStart.

(** Bytes decode when each of them is below 128. *)
Fixpoint is_ascii (s : string) : bool :=
  match s with
  | EmptyString => true
  | String c rest => ((nat_of_ascii c <? 128)%nat && is_ascii rest)%bool
  end.

Definition decode (raw : string) : option string :=
  if is_ascii raw then Some raw else None.

Definition w (code : Z) : world :=
  {| fs := files; os_mkdir := mkdir; os_exec := tool code;
     locale_decode := decode; sys_argv := ["score.py"] |}.

(** The same world with a tool that writes other bytes. *)
Definition w_writing (o e : string) (code : Z) : world :=
  {| fs := files; os_mkdir := mkdir;
     os_exec := fun cmd => if Py.startswith cmd "/opt/lightgbm "
                           then Exits 3 o e code else CannotStart;
     locale_decode := decode; sys_argv := ["score.py"] |}.

Definition args (m o : option string) : Namespace :=
  {| lightgbm_exec := "/opt/lightgbm"; data := "/data/test.tsv";
     model := m; output := o |}.

Definition no_exec (o : option string) : Namespace :=
  {| lightgbm_exec := "/opt/missing"; data := "/data/test.tsv";
     model := None; output := o |}.

End Demo.

(** ** What lines 63-68 decide *)

(** [args] as it stands at line 70, after the assignment of line 65. *)
Definition with_output_file (args : Namespace) : Namespace :=
  match output args with
  | Some (String _ _ as dir) =>
      set_output args (Some (os_path_join dir "predictions.txt"))
  | _ => args
  end.

(** Lines 63-65 pass: no directory is asked for, or [os.makedirs] returns. *)
Definition usable_output (args : Namespace) (w : world) : bool :=
  match out (prepare_output args w) with
  | Returned _ => true
  | _ => false
  end.

(** The argument set passes lines 63-68: the command line gets built. *)
Definition validated (args : Namespace) (w : world) : bool :=
  (is_file (fs w) (lightgbm_exec args) && usable_output args w)%bool.

(** The command string of the invocation. *)
Definition command_string (args : Namespace) : string :=
  Py.join " " (lightgbm_cli_command (with_output_file args)).


Definition is_output_result (token : string) : bool :=
  Py.startswith token "output_result=".

(** The texts of the two captured streams, when both decode, and else the
    bytes that do not, standard output being decoded first. *)
Definition decoded_streams (decode : string -> option string) (o e : string)
  : string + (string * string) :=
  match captured true decode o with
  | None => inl o
  | Some text_out =>
      match captured true decode e with
      | None => inl e
      | Some text_err => inr (text_out, text_err)
      end
  end.

(** The events of the call of the external tool, by what the launcher does
    with the command string and how the locale decodes. *)
Definition invoke_events (cmd : string) (decode : string -> option string)
    (b : behaviour) : list event :=
  [Print "Running .predict()"; TimeBlockEnter "inferencing";
   SubprocessRun cmd false None] ++
  match b with
  | CannotStart => [TimeBlockExit "inferencing"]
  | RunsForever => [ProcessStarted cmd]
  | Exits _ o e code =>
      [ProcessStarted cmd; ProcessExited cmd code] ++
      match decoded_streams decode o e with
      | inr (text_out, text_err) =>
          [Print ("LightGBM stdout: " +:+ text_out);
           Print ("LightGBM stderr: " +:+ text_err);
           Print ("LightGBM return code: " +:+ Py.str_int code);
           TimeBlockExit "inferencing"]
      | inl _ => [TimeBlockExit "inferencing"]
      end
  end.

Definition invoke_outcome (cmd : string) (decode : string -> option string)
    (b : behaviour) : outcome unit :=
  match b with
  | CannotStart => Raised (OSError cmd)
  | RunsForever => Blocked
  | Exits _ o e _ =>
      match decoded_streams decode o e with
      | inr _ => Returned tt
      | inl raw => Raised (UnicodeDecodeError raw)
      end
  end.

(** A stand-in for the library's parser, to run [main] on examples: options
    are recognised by their full name, a storing option takes the next
    token as its value, the help option ends the script with status 0,
    anything else is left over; a required option that is absent, or an
    option without a value, ends in [SystemExit(2)]. *)
Module DemoParser.

Definition flags_of (action : arg_action) (parser : ArgumentParser) : list string :=
  concat (map arg_flags
            (List.filter (fun a => match arg_action_of a, action with
                                   | action_store, action_store => true
                                   | action_help, action_help => true
                                   | _, _ => false
                                   end) (arguments parser))).

Inductive scanned :=
| Values (vals : list (string * string)) (unknown : list string)
| Help
| Missing.

Fixpoint scan (storing helping : list string) (tokens : list string) : scanned :=
  match tokens with
  | [] => Values [] []
  | t :: rest =>
      if existsb (String.eqb t) helping then Help
      else if existsb (String.eqb t) storing then
        match rest with
        | [] => Missing
        | v :: rest' =>
            match scan storing helping rest' with
            | Values vals unknown => Values ((t, v) :: vals) unknown
            | other => other
            end
        end
      else
        match scan storing helping rest with
        | Values vals unknown => Values vals (t :: unknown)
        | other => other
        end
  end.

Fixpoint value_of (flag : string) (vals : list (string * string)) : option string :=
  match vals with
  | [] => None
  | (f, v) :: rest =>
      match value_of flag rest with
      | Some later => Some later
      | None => if String.eqb f flag then Some v else None
      end
  end.

Definition parse_known_args (parser : ArgumentParser) (tokens : list string)
  : M (Namespace * list string) :=
  match scan (flags_of action_store parser) (flags_of action_help parser) tokens with
  | Help => raise (SystemExit 0)
  | Missing => raise (SystemExit 2)
  | Values vals unknown =>
      match value_of "--lightgbm_exec" vals, value_of "--data" vals with
      | Some e, Some d =>
          ret ({| lightgbm_exec := e; data := d;
                  model := value_of "--model" vals;
                  output := value_of "--output" vals |}, unknown)
      | _, _ => raise (SystemExit 2)
      end
  end.

End DemoParser.

(** What making directories does to a world, in this model: the system
    stays the same, every path keeps what it named or, having named
    nothing, names a directory whose making is among the events, and each
    event is the making of a directory that was not there. *)
Definition grows (w w' : world) (evs : list event) : Prop :=
  os_mkdir w' = os_mkdir w /\
  os_exec w' = os_exec w /\
  locale_decode w' = locale_decode w /\
  sys_argv w' = sys_argv w /\
  (forall q, fs w' !! q = fs w !! q \/
             (fs w !! q = None /\ fs w' !! q = Some Dir /\ In (Mkdir q) evs)) /\
  (forall e, In e evs ->
     exists p, e = Mkdir p /\ fs w !! p = None /\ fs w' !! p = Some Dir).

(** The exceptions that stand for an error of the operating system. *)
Definition is_os_error (e : exn) : bool :=
  match e with
  | FileExistsError _ | NotADirectoryError _ | PermissionError _
  | FileNotFoundError _ | OSError _ => true
  | _ => false
  end.

(** Is the exception the configuration error of line 68? *)
Definition is_configuration_error {A} (o : outcome A) : bool :=
  match o with
  | Raised (Exception _) => true
  | _ => false
  end.

(** Inversion of membership in a listed sequence of events. *)
Ltac invert_events :=
  repeat match goal with
         | H : In _ (_ :: _) |- _ => destruct H as [H|H]
         | H : In _ [] |- _ => destruct H
         end;
  simplify_eq.

(** Membership of a listed event. *)
Ltac find_event :=
  cbn [app In]; repeat first [left; reflexivity | right].

(** ** Module initialisation *)

(** Lines 15-20, run when the module is loaded: [COMMON_ROOT] is put at the
    end of [sys.path] unless it is there already, and the addition is
    announced.  [COMMON_ROOT] stands for the absolute path line 16 computes;
    the result is the new [sys.path] and what was printed. *)
Definition extend_sys_path (COMMON_ROOT : string) (sys_path : list string)
  : list string * list event :=
  if negb (existsb (String.eqb COMMON_ROOT) sys_path)
  then (sys_path ++ [COMMON_ROOT],
        [Print ("Adding " +:+ COMMON_ROOT +:+ " to PYTHONPATH")])
  else (sys_path, []).

(** Does the text hold a carriage return? *)
Fixpoint has_carriage_return (s : string) : bool :=
  match s with
  | EmptyString => false
  | String c rest => (Ascii.eqb c Py.CR || has_carriage_return rest)%bool
  end.

(** The four option strings [get_arg_parser] declares. *)
Definition script_flags : list string :=
  ["--lightgbm_exec"; "--data"; "--model"; "--output"].

(** What is left of the options held once the four option strings have
    been taken from them, one after the other. *)
Definition without_script_flags (held : list Argument) : list Argument :=
  fold_left (fun left flag => resolve_conflicts [flag] left) script_flags held.

(** The options [get_arg_parser] declares: what it adds to a new parser,
    after the help option the parser is born with. *)
Definition declared_options : list Argument :=
  match get_arg_parser None with
  | inr parser => tl (arguments parser)
  | inl _ => []
  end.


(** The three lines printed after the call. *)
Definition is_result_line (e : event) : bool :=
  match e with
  | Print line => Py.startswith line "LightGBM "
  | _ => false
  end.


(** ** Unfolding lemmas *)

Lemma bind_returned {A B} (m : M A) (k : A -> M B) w a w1 ev :
  m w = {| out := Returned a; final := w1; events := ev |} ->
  bind m k w =
    {| out := out (k a w1); final := final (k a w1);
       events := ev ++ events (k a w1) |}.
Proof. intros H. unfold bind. rewrite H. now destruct (k a w1). Qed.

Lemma bind_raised {A B} (m : M A) (k : A -> M B) w e w1 ev :
  m w = {| out := Raised e; final := w1; events := ev |} ->
  bind m k w = {| out := Raised e; final := w1; events := ev |}.
Proof. intros H. unfold bind. now rewrite H. Qed.

Lemma bind_blocked {A B} (m : M A) (k : A -> M B) w w1 ev :
  m w = {| out := Blocked; final := w1; events := ev |} ->
  bind m k w = {| out := Blocked; final := w1; events := ev |}.
Proof. intros H. unfold bind. now rewrite H. Qed.

(** A step that only emits an event. *)
Lemma bind_emit {B} (e : event) (k : unit -> M B) w :
  bind (emit e) k w =
    {| out := out (k tt w); final := final (k tt w);
       events := e :: events (k tt w) |}.
Proof. unfold bind, emit. now destruct (k tt w). Qed.

(** A record of results is its three fields. *)
Lemma result_eta {A} (r : result A) :
  r = {| out := out r; final := final r; events := events r |}.
Proof. now destruct r. Qed.

(** ** Making directories *)

Lemma grows_refl w : grows w w [].
Proof. unfold grows. repeat split; auto. intros e []. Qed.

Lemma grows_trans w1 w2 w3 evs evs' :
  grows w1 w2 evs -> grows w2 w3 evs' -> grows w1 w3 (evs ++ evs').
Proof.
  intros (Hm & Hx & Hd & Ha & Hfs & Hev) (Hm' & Hx' & Hd' & Ha' & Hfs' & Hev').
  unfold grows. repeat split; try congruence.
  - intros q.
    destruct (Hfs q) as [H12|(H1 & H2 & Hi)], (Hfs' q) as [H23|(H2' & H3 & Hi')].
    + left. congruence.
    + right. repeat split; try congruence. apply in_or_app. now right.
    + right. repeat split; try congruence. apply in_or_app. now left.
    + congruence.
  - intros e [Hin|Hin]%in_app_or.
    + destruct (Hev e Hin) as (p & -> & Hp1 & Hp2). exists p.
      repeat split; [exact Hp1|].
      destruct (Hfs' p) as [H23|(H2' & _)]; congruence.
    + destruct (Hev' e Hin) as (p & -> & Hp2 & Hp3). exists p.
      repeat split; [|exact Hp3].
      destruct (Hfs p) as [H12|(_ & H2 & _)]; congruence.
Qed.

Lemma make_dir_spec d w :
  let r := make_dir d w in
  out r = Returned tt /\ grows w (final r) (events r) /\
  fs (final r) !! d <> None /\
  (fs w !! d = None -> events r = [Mkdir d]).
Proof.
  cbv zeta. unfold make_dir. destruct (fs w !! d) as [n|] eqn:E.
  - cbn [ret out final events]. rewrite E.
    split; [reflexivity|]. split; [apply grows_refl|]. split; congruence.
  - cbn [out final events fs set_fs]. rewrite lookup_insert_eq.
    split; [reflexivity|]. split; [|split; [discriminate | reflexivity]].
    unfold grows. cbn [set_fs fs os_mkdir os_exec locale_decode sys_argv].
    repeat split.
    + intros q. destruct (decide (d = q)) as [<-|Hne].
      * right. rewrite lookup_insert_eq. repeat split; [exact E | now left].
      * left. now rewrite lookup_insert_ne.
    + intros e [<-|[]]. exists d. now rewrite lookup_insert_eq.
Qed.

Lemma grows_keeps w w' evs q n :
  grows w w' evs -> fs w !! q = Some n -> fs w' !! q = Some n.
Proof.
  intros (_ & _ & _ & _ & Hfs & _) Hq.
  destruct (Hfs q) as [H|(H & _)]; congruence.
Qed.

Lemma grows_is_file w w' evs q :
  grows w w' evs -> is_file (fs w') q = is_file (fs w) q.
Proof.
  intros (_ & _ & _ & _ & Hfs & _). unfold is_file.
  destruct (Hfs q) as [->|(-> & -> & _)]; reflexivity.
Qed.

Lemma grows_mkdir_events w w' evs e :
  grows w w' evs -> In e evs -> exists p, e = Mkdir p.
Proof.
  intros (_ & _ & _ & _ & _ & Hev) Hin.
  destruct (Hev e Hin) as (p & -> & _). eauto.
Qed.

Lemma make_dirs_spec dirs w :
  let r := make_dirs dirs w in
  out r = Returned tt /\ grows w (final r) (events r) /\
  (forall d, In d dirs -> fs (final r) !! d <> None) /\
  (forall d, In d dirs -> fs w !! d = None -> In (Mkdir d) (events r)).
Proof.
  revert w. induction dirs as [|d dirs IH]; intros w; cbv zeta.
  - cbn [make_dirs ret out final events].
    split; [reflexivity|]. split; [apply grows_refl|]. split; intros d [].
  - cbn [make_dirs].
    destruct (make_dir_spec d w) as (Ho & Hg & Hd & Hmk).
    rewrite (bind_returned _ _ _ _ _ _
               (eq_trans (result_eta (make_dir d w))
                  (f_equal (fun o => {| out := o; final := final (make_dir d w);
                                        events := events (make_dir d w) |}) Ho))).
    cbn [out final events].
    destruct (IH (final (make_dir d w))) as (Ho' & Hg' & Hd' & Hmk').
    split; [exact Ho'|]. split; [exact (grows_trans _ _ _ _ _ Hg Hg')|].
    split.
    + intros x [<-|Hx]; [|now apply Hd'].
      destruct (fs (final (make_dir d w)) !! d) as [n|] eqn:E; [|congruence].
      now rewrite (grows_keeps _ _ _ _ _ Hg' E).
    + intros x [<-|Hx] Habs.
      * apply in_or_app. left. rewrite (Hmk Habs). now left.
      * apply in_or_app.
        destruct (fs (final (make_dir d w)) !! x) as [n|] eqn:E.
        -- left. destruct Hg as (_ & _ & _ & _ & Hfs & _).
           destruct (Hfs x) as [H|(_ & _ & Hi)]; [congruence | exact Hi].
        -- right. now apply Hmk'.
Qed.

Lemma make_dirs_result dirs w :
  make_dirs dirs w =
    {| out := Returned tt; final := final (make_dirs dirs w);
       events := events (make_dirs dirs w) |}.
Proof.
  destruct (make_dirs_spec dirs w) as (Ho & _).
  rewrite (result_eta (make_dirs dirs w)) at 1. now rewrite Ho.
Qed.

(** [os.makedirs(name, exist_ok=True)]: it never blocks; whatever it does
    only makes directories; when it returns, [name] is a directory, made by
    the call if it was not there; and on a directory that exists it
    returns at once. *)
Lemma os_makedirs_spec name w :
  let r := os_makedirs name true w in
  grows w (final r) (events r) /\
  out r <> Blocked /\
  (out r = Returned tt ->
     name <> "" /\ is_dir (fs (final r)) name = true /\
     (fs w !! name = None -> In (Mkdir name) (events r))) /\
  (name <> "" -> is_dir (fs w) name = true -> r = ret tt w) /\
  (forall e, out r = Raised e -> is_os_error e = true).
Proof.
  cbv zeta. unfold os_makedirs, is_dir.
  destruct name as [|c name].
  { cbn. repeat split; try apply grows_refl; try discriminate; try congruence.
    now intros e [= <-]. }
  destruct (fs w !! String c name) as [[|]|] eqn:E.
  - destruct (os_mkdir w (fs w) (String c name)) as [made|made err path]; cbn;
      repeat split; try apply grows_refl; try discriminate;
      intros e [= <-]; [reflexivity | now destruct err].
  - cbn [ret out final events]. rewrite E.
    repeat split; try apply grows_refl; try discriminate; congruence.
  - destruct (os_mkdir w (fs w) (String c name)) as [made|made err path].
    + destruct (make_dirs_spec (made ++ [String c name]) w) as (Ho & Hg & Hd & Hmk).
      split; [exact Hg|]. split; [congruence|].
      split; [|split; [discriminate | congruence]].
      intros _. split; [discriminate|].
      assert (Hin : In (String c name) (made ++ [String c name]))
        by (apply in_or_app; right; now left).
      split; [|intros _; now apply Hmk].
      destruct Hg as (_ & _ & _ & _ & Hfs & _).
      destruct (Hfs (String c name)) as [H|(_ & -> & _)]; [|reflexivity].
      specialize (Hd _ Hin). congruence.
    + rewrite (bind_returned _ _ _ _ _ _ (make_dirs_result made w)).
      cbn [raise out final events]. rewrite app_nil_r.
      destruct (make_dirs_spec made w) as (_ & Hg & _).
      split; [exact Hg|]. repeat split; try discriminate.
      intros e [= <-]. now destruct err.
Qed.

(** Lines 63-65 do nothing when no directory is asked for, and otherwise
    are [os.makedirs]: they only make directories, they fail exactly as it
    does, and past them the directory exists and [args.output] names the
    predictions file. *)
Lemma prepare_output_spec args w :
  let p := prepare_output args w in
  grows w (final p) (events p) /\
  match out p with
  | Returned a => a = with_output_file args /\ usable_output args w = true
  | Raised e =>
      usable_output args w = false /\
      exists dir, output args = Some dir /\ dir <> "" /\
                  out (os_makedirs dir true w) = Raised e
  | Blocked => False
  end /\
  (forall dir, output args = Some dir -> dir <> "" ->
     usable_output args w = true ->
     is_dir (fs (final p)) dir = true /\
     (fs w !! dir = None -> In (Mkdir dir) (events p)) /\
     (is_dir (fs w) dir = true -> final p = w /\ events p = [])) /\
  (Py.truthy (output args) = false -> p = ret args w).
Proof.
  cbv zeta. unfold usable_output, with_output_file, prepare_output.
  destruct (output args) as [[|c dir]|] eqn:Ho;
    try (cbn; repeat split; try apply grows_refl; congruence).
  destruct (os_makedirs_spec (String c dir) w) as (Hg & Hnb & Hret & Hdir & _).
  destruct (os_makedirs (String c dir) true w) as [[[]|e|] w1 ev] eqn:Em;
    cbn [out final events] in *.
  - rewrite (bind_returned _ _ _ _ _ _ Em). cbn [ret out final events].
    rewrite app_nil_r. split; [exact Hg|]. split; [auto|].
    split; [|discriminate].
    intros d [= <-] _ _. destruct (Hret eq_refl) as (_ & Hd & Hmk).
    split; [exact Hd|]. split; [exact Hmk|].
    intros His. specialize (Hdir ltac:(discriminate) His).
    unfold ret in Hdir. injection Hdir as -> ->. auto.
  - rewrite (bind_raised _ _ _ _ _ _ Em). cbn [out final events].
    split; [exact Hg|]. split.
    + split; [reflexivity|]. exists (String c dir).
      repeat split; [discriminate|]. now rewrite Em.
    + split; [discriminate|discriminate].
  - congruence.
Qed.

(** [subprocess.run] as the script calls it: both streams captured as
    text, nothing checked, nothing timed out. *)
Lemma subprocess_run_eq cmd w :
  subprocess_run cmd true true true false None w =
    match os_exec w cmd with
    | CannotStart =>
        {| out := Raised (OSError cmd); final := w;
           events := [SubprocessRun cmd false None] |}
    | RunsForever =>
        {| out := Blocked; final := w;
           events := [SubprocessRun cmd false None; ProcessStarted cmd] |}
    | Exits _ o e code =>
        {| out := match decoded_streams (locale_decode w) o e with
                  | inr (text_out, text_err) =>
                      Returned {| stdout := Some text_out;
                                  stderr := Some text_err;
                                  returncode := code |}
                  | inl raw => Raised (UnicodeDecodeError raw)
                  end;
           final := w;
           events := [SubprocessRun cmd false None; ProcessStarted cmd;
                      ProcessExited cmd code] |}
    end.
Proof.
  unfold subprocess_run. rewrite bind_emit. cbv beta.
  destruct (os_exec w cmd) as [| |ticks o e code];
    rewrite ?bind_emit; try reflexivity.
  cbv beta. unfold decoded_streams.
  destruct (captured true (locale_decode w) o) as [text_out|];
    [|reflexivity].
  destruct (captured true (locale_decode w) e) as [text_err|]; reflexivity.
Qed.

Lemma invoke_eq command w :
  let cmd := Py.join " " command in
  invoke command w =
    {| out := invoke_outcome cmd (locale_decode w) (os_exec w cmd);
       final := w;
       events := invoke_events cmd (locale_decode w) (os_exec w cmd) |}.
Proof.
  cbv zeta. unfold invoke, invoke_outcome, invoke_events.
  unfold LogTimeBlock, print.
  rewrite !bind_emit. cbv beta.
  pose proof (subprocess_run_eq (Py.join " " command) w) as Hs.
  destruct (os_exec w (Py.join " " command)) as [| |ticks o e code].
  - rewrite (bind_raised _ _ _ _ _ _ Hs). reflexivity.
  - rewrite (bind_blocked _ _ _ _ _ Hs). reflexivity.
  - destruct (decoded_streams (locale_decode w) o e) as [raw|[text_out text_err]].
    + rewrite (bind_raised _ _ _ _ _ _ Hs). reflexivity.
    + rewrite (bind_returned _ _ _ _ _ _ Hs). rewrite !bind_emit.
      reflexivity.
Qed.

(** [run] in one equation: the three stages in sequence. *)
Lemma run_eq args other w :
  run args other w =
    let p := prepare_output args w in
    match out p with
    | Returned a =>
        if is_file (fs (final p)) (lightgbm_exec a)
        then
          let cmd := Py.join " " (lightgbm_cli_command a) in
          {| out := invoke_outcome cmd (locale_decode (final p))
                      (os_exec (final p) cmd);
             final := final p;
             events := events p ++
                       invoke_events cmd (locale_decode (final p))
                         (os_exec (final p) cmd) |}
        else
          {| out := Raised (Exception ("Could not find lightgbm exec under path "
                                       +:+ lightgbm_exec a));
             final := final p;
             events := events p |}
    | Raised e => {| out := Raised e; final := final p; events := events p |}
    | Blocked => {| out := Blocked; final := final p; events := events p |}
    end.
Proof.
  unfold run. unfold bind at 1. cbv zeta.
  destruct (prepare_output args w) as [[a|e|] w1 ev]; cbn [out final events];
    try reflexivity.
  unfold check_exec, os_path_isfile. unfold bind at 1. unfold bind at 1.
  unfold ret at 1. cbn [out final events].
  destruct (is_file (fs w1) (lightgbm_exec a)); cbn [negb].
  - unfold ret. rewrite invoke_eq. reflexivity.
  - unfold raise. now rewrite app_nil_r.
Qed.

Lemma with_output_file_exec args :
  lightgbm_exec (with_output_file args) = lightgbm_exec args.
Proof. unfold with_output_file. now destruct (output args) as [[|]|]. Qed.

Lemma with_output_file_data args : data (with_output_file args) = data args.
Proof. unfold with_output_file. now destruct (output args) as [[|]|]. Qed.

Lemma with_output_file_model args : model (with_output_file args) = model args.
Proof. unfold with_output_file. now destruct (output args) as [[|]|]. Qed.

(** What a validated argument set makes of [run]: the directory stage
    returns, the check passes, and the outcome is that of the call. *)
Lemma run_validated args other w :
  validated args w = true ->
  let p := prepare_output args w in
  let cmd := command_string args in
  run args other w =
    {| out := invoke_outcome cmd (locale_decode w) (os_exec w cmd);
       final := final p;
       events := events p ++
                 invoke_events cmd (locale_decode w) (os_exec w cmd) |}.
Proof.
  unfold validated. intros [Hexec Huse]%andb_prop. cbv zeta.
  rewrite run_eq. cbv zeta.
  destruct (prepare_output_spec args w) as (Hg & Hout & _).
  pose proof (grows_is_file _ _ _ (lightgbm_exec args) Hg) as Hfile.
  destruct Hg as (_ & Hx & Hd & _).
  destruct (out (prepare_output args w)) as [a|e|].
  - destruct Hout as [-> _].
    rewrite with_output_file_exec, Hfile, Hexec, Hx, Hd. reflexivity.
  - destruct Hout as [Hno _]. congruence.
  - destruct Hout.
Qed.

(** An argument set that is not validated never reaches the call: [run]
    raises, having at most made directories. *)
Lemma run_rejected args other w :
  validated args w = false ->
  let r := run args other w in
  events r = events (prepare_output args w) /\
  (forall e, In e (events r) -> exists p, e = Mkdir p) /\
  ((usable_output args w = true /\
    is_file (fs w) (lightgbm_exec args) = false /\
    out r = Raised (Exception ("Could not find lightgbm exec under path "
                               +:+ lightgbm_exec args)))
   \/
   (usable_output args w = false /\
    exists dir e, output args = Some dir /\ dir <> "" /\
                  out (os_makedirs dir true w) = Raised e /\
                  out r = Raised e)).
Proof.
  unfold validated. intros Hv. cbv zeta. rewrite run_eq. cbv zeta.
  destruct (prepare_output_spec args w) as (Hg & Hout & _).
  pose proof (grows_is_file _ _ _ (lightgbm_exec args) Hg) as Hfile.
  pose proof (fun e => grows_mkdir_events _ _ _ e Hg) as Hev.
  destruct (out (prepare_output args w)) as [a|e|].
  - destruct Hout as [-> Huse].
    rewrite with_output_file_exec, Hfile.
    rewrite Huse, andb_true_r in Hv. rewrite Hv. cbn [out events].
    split; [reflexivity|]. split; [exact Hev|]. left. auto.
  - destruct Hout as [Huse (dir & Hdir & Hne & Hmk)]. cbn [out events].
    split; [reflexivity|]. split; [exact Hev|]. right. eauto 8.
  - destruct Hout.
Qed.


(** [run] never reads [other_args]. *)
Lemma run_ignores_other_args args u1 u2 w : run args u1 w = run args u2 w.
Proof. reflexivity. Qed.

(** The parser of the script: the one [get_arg_parser] builds from
    nothing, which it always can. *)
Lemma get_arg_parser_new :
  exists parser, get_arg_parser None = inr parser /\
                 prog parser = __doc__ /\
                 option_strings parser =
                   ["-h"; "--help"; "--lightgbm_exec"; "--data"; "--model"; "--output"].
Proof. eexists. split; [reflexivity|]. split; reflexivity. Qed.

(** [main] is the parser followed by [run] on what it returned. *)
Lemma main_parsed parse cli w parser args unknown w1 ev :
  get_arg_parser None = inr parser ->
  parse parser
        (match cli with Some tokens => tokens | None => tl (sys_argv w) end) w
    = {| out := Returned (args, unknown); final := w1; events := ev |} ->
  main parse cli w =
    {| out := out (run args unknown w1);
       final := final (run args unknown w1);
       events := ev ++ events (run args unknown w1) |}.
Proof.
  intros Hp H. unfold main. rewrite Hp.
  rewrite (bind_returned _ _ w parser w []); [|reflexivity].
  cbn [out final events app].
  rewrite (bind_returned _ _ w (args, unknown) w1 ev); [reflexivity | exact H].
Qed.

(** [run] leaves the world as lines 63-65 left it. *)
Lemma run_final args other w :
  final (run args other w) = final (prepare_output args w).
Proof.
  rewrite run_eq. cbv zeta.
  destruct (out (prepare_output args w)) as [a|e|]; try reflexivity.
  now destruct (is_file _ _).
Qed.

(** The events of [run]: those of lines 63-65, then those of the call when
    the argument set is validated. *)
Lemma run_events_split args other w :
  events (run args other w) =
    events (prepare_output args w) ++
    (if validated args w
     then invoke_events (command_string args) (locale_decode w)
            (os_exec w (command_string args))
     else []).
Proof.
  destruct (validated args w) eqn:Hv.
  - now rewrite (run_validated args other w Hv).
  - destruct (run_rejected args other w Hv) as (-> & _). now rewrite app_nil_r.
Qed.

(** Every event of [run] is the making of a directory or, for a validated
    argument set, an event of the call of the external tool. *)
Lemma run_events args other w e :
  In e (events (run args other w)) ->
  (exists p, e = Mkdir p) \/
  (validated args w = true /\
   In e (invoke_events (command_string args) (locale_decode w)
           (os_exec w (command_string args)))).
Proof.
  rewrite run_events_split. intros [Hin|Hin]%in_app_or.
  - left. destruct (prepare_output_spec args w) as (Hg & _).
    exact (grows_mkdir_events _ _ _ _ Hg Hin).
  - right. destruct (validated args w); [auto | destruct Hin].
Qed.

(** The outcome of [run]: that of the call for a validated argument set,
    and otherwise the configuration error or the error of the system that
    stopped [os.makedirs]. *)
Lemma run_outcome args other w :
  (validated args w = true /\
   out (run args other w) =
     invoke_outcome (command_string args) (locale_decode w)
       (os_exec w (command_string args)))
  \/
  (validated args w = false /\
   ((exists msg, out (run args other w) = Raised (Exception msg)) \/
    (exists e, out (run args other w) = Raised e /\ is_os_error e = true))).
Proof.
  destruct (validated args w) eqn:Hv.
  - left. now rewrite (run_validated args other w Hv).
  - right. split; [reflexivity|].
    destruct (run_rejected args other w Hv)
      as (_ & _ & [(_ & _ & Ho) | (_ & dir & e & _ & _ & Hmk & Ho)]);
      [eauto|].
    right. exists e. split; [exact Ho|].
    now apply (os_makedirs_spec dir w).
Qed.

Lemma invoke_events_call cmd decode b c check t :
  In (SubprocessRun c check t) (invoke_events cmd decode b) ->
  c = cmd /\ check = false /\ t = None.
Proof.
  unfold invoke_events.
  destruct b as [| |ticks o e code]; [| |destruct (decoded_streams decode o e) as [?|[? ?]]];
    cbn [app]; intros H; invert_events; auto.
Qed.

Lemma invoke_events_no_kill cmd decode b c :
  ~ In (ProcessKilled c) (invoke_events cmd decode b).
Proof.
  unfold invoke_events.
  destruct b as [| |ticks o e code]; [| |destruct (decoded_streams decode o e) as [?|[? ?]]];
    cbn [app]; intros H; invert_events.
Qed.

Lemma invoke_events_no_mkdir cmd decode b p :
  ~ In (Mkdir p) (invoke_events cmd decode b).
Proof.
  unfold invoke_events.
  destruct b as [| |ticks o e code]; [| |destruct (decoded_streams decode o e) as [?|[? ?]]];
    cbn [app]; intros H; invert_events.
Qed.

Lemma invoke_events_started cmd decode b c :
  In (ProcessStarted c) (invoke_events cmd decode b) ->
  c = cmd /\ b <> CannotStart.
Proof.
  unfold invoke_events.
  destruct b as [| |ticks o e code]; [| |destruct (decoded_streams decode o e) as [?|[? ?]]];
    cbn [app]; intros H; invert_events; auto.
Qed.

Lemma invoke_events_exited cmd decode b c n :
  In (ProcessExited c n) (invoke_events cmd decode b) ->
  c = cmd /\ exists ticks o e, b = Exits ticks o e n.
Proof.
  unfold invoke_events.
  destruct b as [| |ticks o e code]; [| |destruct (decoded_streams decode o e) as [?|[? ?]]];
    cbn [app]; intros H; invert_events; eauto.
Qed.

(** In the model of [subprocess.run] a timeout does cut a long run short:
    the process is killed and [TimeoutExpired] is raised. *)
Lemma subprocess_run_timeout_kills cmd w ticks o e code (t : nat) :
  os_exec w cmd = Exits ticks o e code -> (t < ticks)%nat ->
  let r := subprocess_run cmd true true true false (Some t) w in
  out r = Raised (TimeoutExpired cmd t) /\ In (ProcessKilled cmd) (events r).
Proof.
  intros Hb Hlt. cbv zeta. unfold subprocess_run. rewrite bind_emit. cbv beta.
  rewrite Hb. apply Nat.ltb_lt in Hlt. rewrite Hlt. rewrite !bind_emit.
  cbn. auto.
Qed.

(** Both streams decode: the texts [run] prints. *)
Lemma decoded_streams_inr decode o e text_out text_err :
  decoded_streams decode o e = inr (text_out, text_err) <->
  option_map Py.translate_newlines (decode o) = Some text_out /\
  option_map Py.translate_newlines (decode e) = Some text_err.
Proof.
  unfold decoded_streams, captured.
  destruct (option_map Py.translate_newlines (decode o));
    destruct (option_map Py.translate_newlines (decode e));
    split; try intros [? ?]; try intros ?; simplify_eq; auto.
Qed.

(** ** The script at work *)

(** A complete invocation: the output directory exists, the tool exits
    with code 7. *)
Example run_demo :
  let r := run (Demo.args (Some "/data/model.txt") (Some "/tmp/out")) []
               (Demo.w 7) in
  let cmd := "/opt/lightgbm task=prediction data=/data/test.tsv input_model=/data/model.txt verbosity=2 output_result=/tmp/out/predictions.txt" in
  out r = Returned tt /\
  events r =
    [ Print "Running .predict()";
      TimeBlockEnter "inferencing";
      SubprocessRun cmd false None;
      ProcessStarted cmd;
      ProcessExited cmd 7;
      Print "LightGBM stdout: A";
      Print "LightGBM stderr: B";
      Print "LightGBM return code: 7";
      TimeBlockExit "inferencing" ].
Proof. cbv zeta. split; vm_compute; reflexivity. Qed.

(** The launcher refuses the command: the exception leaves the timing
    block, which is closed, and nothing is printed after the call. *)
Example run_demo_cannot_start :
  let w := {| fs := Demo.files; os_mkdir := Demo.mkdir;
              os_exec := fun _ => CannotStart;
              locale_decode := Demo.decode; sys_argv := [] |} in
  let r := run (Demo.args None None) [] w in
  let cmd := "/opt/lightgbm task=prediction data=/data/test.tsv input_model=None verbosity=2" in
  out r = Raised (OSError cmd) /\
  events r =
    [ Print "Running .predict()"; TimeBlockEnter "inferencing";
      SubprocessRun cmd false None; TimeBlockExit "inferencing" ].
Proof. cbv zeta. split; vm_compute; reflexivity. Qed.

(** The output directory lies two levels under a directory that is not
    there: all three are made, outermost first. *)
Example run_demo_makes_ancestors :
  let r := run (Demo.no_exec (Some "/a/b/c")) [] (Demo.w 0) in
  events r = [Mkdir "/a"; Mkdir "/a/b"; Mkdir "/a/b/c"] /\
  is_configuration_error (out r) = true.
Proof. cbv zeta. split; vm_compute; reflexivity. Qed.

(** The output directory is asked for under a regular file: nothing is
    made and the error is the system's. *)
Example run_demo_under_a_file :
  let r := run (Demo.args None (Some "/etc/passwd/sub")) [] (Demo.w 0) in
  out r = Raised (NotADirectoryError "/etc/passwd/sub") /\ events r = [] /\
  validated (Demo.args None (Some "/etc/passwd/sub")) (Demo.w 0) = false.
Proof. cbv zeta. repeat split; vm_compute; reflexivity. Qed.

(** The tool writes a line ended by carriage return and line feed, and a
    lone carriage return: what is printed has line feeds only. *)
Example run_demo_newlines :
  let cr := String Py.CR EmptyString in
  let lf := String Py.LF EmptyString in
  let r := run (Demo.args None None) []
               (Demo.w_writing ("one" +:+ cr +:+ lf +:+ "two" +:+ cr +:+ "three") "" 0) in
  out r = Returned tt /\
  In (Print ("LightGBM stdout: one" +:+ lf +:+ "two" +:+ lf +:+ "three")) (events r).
Proof. cbv zeta. split; vm_compute; [reflexivity | find_event]. Qed.

(** A required option is missing: the parser ends the script with status 2
    and [run] is never entered. *)
Example main_demo_missing_option :
  let r := main DemoParser.parse_known_args (Some ["--data"; "/data/test.tsv"])
                (Demo.w 0) in
  exit_status (out r) = Some 2 /\ events r = [].
Proof. cbv zeta. split; vm_compute; reflexivity. Qed.

Example os_path_join_examples :
  os_path_join "/tmp/x" "predictions.txt" = "/tmp/x/predictions.txt" /\
  os_path_join "/tmp/x/" "predictions.txt" = "/tmp/x/predictions.txt" /\
  os_path_join "out" "predictions.txt" = "out/predictions.txt".
Proof. repeat split. Qed.

(** ** The executable check (C1, C7) *)







(** ** The call of the external tool (C4, C5, C8) *)

(** C8.  The call is made with [timeout=None]: in no invocation is
    [TimeoutExpired] raised or the external process killed.  A process that
    has been started is waited for however long it runs: if it exits, after
    any number of ticks, its exit is observed and [run] goes on, returning
    when the captured streams decode and raising [UnicodeDecodeError] when
    they do not; if it never exits, [run] stays blocked. *)
Theorem subprocess_call_has_no_timeout args other w :
  let r := run args other w in
  (forall cmd check t, In (SubprocessRun cmd check t) (events r) -> t = None) /\
  (forall cmd t, out r <> Raised (TimeoutExpired cmd t)) /\
  (forall cmd, ~ In (ProcessKilled cmd) (events r)) /\
  (forall cmd, In (ProcessStarted cmd) (events r) ->
     match os_exec w cmd with
     | Exits ticks o e code =>
         In (ProcessExited cmd code) (events r) /\
         out r = match decoded_streams (locale_decode w) o e with
                 | inr _ => Returned tt
                 | inl raw => Raised (UnicodeDecodeError raw)
                 end
     | RunsForever => out r = Blocked
     | CannotStart => False
     end).
Proof.
  cbv zeta. split; [|split; [|split]].
  - intros cmd check t [[p Hp]|[_ Hin]]%run_events; [discriminate|].
    now apply invoke_events_call in Hin.
  - intros cmd t H.
    destruct (run_outcome args other w)
      as [[_ Ho] | [_ [[msg Ho] | (e & Ho & He)]]];
      rewrite Ho in H; try discriminate.
    + destruct (os_exec w (command_string args)) as [| |ticks o e code];
        cbn [invoke_outcome] in H; try discriminate.
      destruct (decoded_streams (locale_decode w) o e); discriminate.
    + injection H as ->. discriminate.
  - intros cmd [[p Hp]|[_ Hin]]%run_events; [discriminate|].
    now apply invoke_events_no_kill in Hin.
  - intros cmd [[p Hp]|[Hv Hin]]%run_events; [discriminate|].
    apply invoke_events_started in Hin as [-> Hb].
    rewrite (run_validated args other w Hv). cbn [out events].
    destruct (os_exec w (command_string args)) as [| |ticks o e code];
      [congruence | reflexivity |].
    split; [|reflexivity].
    apply in_or_app. right. unfold invoke_events. find_event.
Qed.







(** ** Unknown tokens (C10) *)

(** C10.  Two invocations whose tokens the parser resolves to the same
    recognised arguments, with different left-over tokens, behave alike:
    the left-over tokens are handed to [run], which does the same whichever
    they are, so the outcome, the final world and the events, the command
    line among them, are identical. *)
Theorem unknown_tokens_have_no_effect
    (parse : ArgumentParser -> list string -> M (Namespace * list string))
    parser tokens1 tokens2 w args unknown1 unknown2 w1 ev :
  get_arg_parser None = inr parser ->
  parse parser tokens1 w
    = {| out := Returned (args, unknown1); final := w1; events := ev |} ->
  parse parser tokens2 w
    = {| out := Returned (args, unknown2); final := w1; events := ev |} ->
  main parse (Some tokens1) w = main parse (Some tokens2) w /\
  run args unknown1 w1 = run args unknown2 w1 /\
  events (main parse (Some tokens1) w) = ev ++ events (run args unknown1 w1).
Proof.
  intros Hp H1 H2.
  rewrite (main_parsed parse (Some tokens1) w parser args unknown1 w1 ev Hp H1).
  rewrite (main_parsed parse (Some tokens2) w parser args unknown2 w1 ev Hp H2).
  rewrite (run_ignores_other_args args unknown1 unknown2 w1).
  auto.
Qed.

Lemma unknown_tokens_have_no_effect_witness :
  let known := ["--lightgbm_exec"; "/opt/lightgbm"; "--data"; "/data/test.tsv"] in
  let tokens1 := known ++ ["--num_threads"] in
  let tokens2 := "--verbose" :: known ++ ["extra"; "tokens"] in
  main DemoParser.parse_known_args (Some tokens1) (Demo.w 0) =
  main DemoParser.parse_known_args (Some tokens2) (Demo.w 0).
Proof.
  cbv zeta.
  pose (parser := match get_arg_parser None with
                  | inr p => p
                  | inl _ => new_ArgumentParser ""
                  end).
  assert (Hparser : get_arg_parser None = inr parser) by (vm_compute; reflexivity).
  refine (proj1 (unknown_tokens_have_no_effect DemoParser.parse_known_args
                   parser _ _ (Demo.w 0) (Demo.args None None)
                   ["--num_threads"] ["--verbose"; "extra"; "tokens"]
                   (Demo.w 0) [] Hparser _ _)).
  - vm_compute. reflexivity.
  - vm_compute. reflexivity.
Defined.

(** ** The command line (C2, C3, C6, C9) *)

Lemma split_spaces_nonempty s : Py.split_spaces s <> [].
Proof.
  destruct s as [|c rest]; cbn; [discriminate|].
  destruct (Ascii.eqb c " "); [discriminate|].
  destruct (Py.split_spaces rest); discriminate.
Qed.

Lemma append_cons c (a b : string) : String c a +:+ b = String c (a +:+ b).
Proof. reflexivity. Qed.

(** Splitting sees the separator of a join like any other space. *)
Lemma split_spaces_app a b :
  Py.split_spaces (a +:+ " " +:+ b) = Py.split_spaces a ++ Py.split_spaces b.
Proof.
  induction a as [|c a IH]; [reflexivity|].
  rewrite append_cons. cbn [Py.split_spaces].
  destruct (Ascii.eqb c " ").
  - cbn [app]. f_equal. exact IH.
  - rewrite IH.
    destruct (Py.split_spaces a) as [|piece pieces] eqn:E; [|reflexivity].
    now apply split_spaces_nonempty in E.
Qed.

Lemma split_spaces_join t tokens :
  Py.split_spaces (Py.join " " (t :: tokens)) =
  concat (map Py.split_spaces (t :: tokens)).
Proof.
  revert t. induction tokens as [|t' tokens IH]; intros t.
  - cbn. now rewrite app_nil_r.
  - change (Py.join " " (t :: t' :: tokens))
      with (t +:+ " " +:+ Py.join " " (t' :: tokens)).
    rewrite split_spaces_app, IH. reflexivity.
Qed.

(** A token without a space survives the split; one with a space does not. *)
Lemma split_spaces_no_space t :
  Py.has_space t = false -> Py.split_spaces t = [t].
Proof.
  induction t as [|c t IH]; [reflexivity|].
  cbn. destruct (Ascii.eqb c " "); [discriminate|].
  cbn. intros H. now rewrite (IH H).
Qed.

Lemma split_spaces_space t :
  Py.has_space t = true -> Py.split_spaces t <> [t].
Proof.
  induction t as [|c t IH]; [discriminate|].
  cbn. destruct (Ascii.eqb c " ") eqn:Ec.
  - intros _ H. injection H as H _. discriminate.
  - cbn. intros Hs.
    destruct (Py.split_spaces t) as [|piece pieces] eqn:E.
    + now apply split_spaces_nonempty in E.
    + intros H. injection H as -> ->. now apply (IH Hs).
Qed.

(** The path of the predictions file in a non-empty directory. *)
Lemma os_path_join_predictions c dir :
  os_path_join (String c dir) "predictions.txt" =
    if Py.endswith_sep (String c dir)
    then String c dir +:+ "predictions.txt"
    else String c dir +:+ "/predictions.txt".
Proof. reflexivity. Qed.

(** The tokens of a validated invocation, from the arguments as given. *)
Lemma command_tokens args :
  lightgbm_cli_command (with_output_file args) =
    [ lightgbm_exec args; "task=prediction"; "data=" +:+ data args;
      "input_model=" +:+ Py.str (model args); "verbosity=2" ] ++
    match output args with
    | Some (String _ _ as dir) =>
        ["output_result=" +:+ os_path_join dir "predictions.txt"]
    | _ => []
    end.
Proof.
  unfold with_output_file, lightgbm_cli_command.
  destruct (output args) as [[|c dir]|] eqn:Ho; cbn [output set_output];
    rewrite ?Ho; try reflexivity.
  rewrite os_path_join_predictions.
  destruct (Py.endswith_sep (String c dir)); reflexivity.
Qed.

(** A validated invocation hands the joined tokens to [subprocess.run],
    once. *)
Lemma run_validated_call args other w cmd check t :
  validated args w = true ->
  In (SubprocessRun cmd check t) (events (run args other w)) <->
  cmd = command_string args /\ check = false /\ t = None.
Proof.
  intros Hv. split.
  - intros [[p Hp]|[_ Hin]]%run_events; [discriminate|].
    now apply invoke_events_call in Hin.
  - intros (-> & -> & ->). rewrite (run_validated args other w Hv).
    cbn [events]. apply in_or_app. right. unfold invoke_events. find_event.
Qed.

(** C2.  For a validated argument set the token list built at lines 70-78
    is, in this order: the executable path, [task=prediction],
    [data=<data path>], the [input_model] token, [verbosity=2], then at most
    one [output_result] token; it is this list, joined, that the process
    runner receives.  It holds [task=prediction] and the data path, and the
    model path in its [input_model] token when a model is given. *)
Theorem command_line_tokens args other w :
  validated args w = true ->
  let tokens := lightgbm_cli_command (with_output_file args) in
  In (SubprocessRun (Py.join " " tokens) false None) (events (run args other w)) /\
  (exists tail,
     tokens = [ lightgbm_exec args; "task=prediction"; "data=" +:+ data args;
                "input_model=" +:+ Py.str (model args); "verbosity=2" ] ++ tail /\
     (tail = [] \/ exists path, tail = ["output_result=" +:+ path])) /\
  In "task=prediction" tokens /\
  In ("data=" +:+ data args) tokens /\
  (forall m, model args = Some m ->
     tokens !! 3%nat = Some ("input_model=" +:+ m)).
Proof.
  intros Hv. cbv zeta. split.
  { apply (run_validated_call args other w _ _ _ Hv). auto. }
  rewrite command_tokens. split.
  { eexists. split; [reflexivity|].
    destruct (output args) as [[|c dir]|]; eauto. }
  split; [find_event|]. split; [find_event|].
  intros m Hm. rewrite Hm. reflexivity.
Qed.

Lemma command_line_tokens_witness :
  let args := Demo.args (Some "/data/model.txt") (Some "/tmp/out") in
  validated args (Demo.w 0) = true /\
  lightgbm_cli_command (with_output_file args) !! 3%nat =
    Some "input_model=/data/model.txt".
Proof.
  cbv zeta.
  assert (Hv : validated (Demo.args (Some "/data/model.txt") (Some "/tmp/out"))
                 (Demo.w 0) = true) by (vm_compute; reflexivity).
  split; [exact Hv|].
  destruct (command_line_tokens _ [] _ Hv) as (_ & _ & _ & _ & Hm).
  exact (Hm "/data/model.txt" eq_refl).
Defined.

(** C9.  For a validated argument set the one command the process runner
    receives is the tokens joined by single spaces, and nothing shields a
    token: cutting the command at its spaces gives the pieces of every token
    cut at its own spaces, so a token comes back whole exactly when it has
    no space in it. *)
Theorem command_is_plain_space_join args other w :
  validated args w = true ->
  let tokens := lightgbm_cli_command (with_output_file args) in
  (forall cmd check t,
     In (SubprocessRun cmd check t) (events (run args other w)) <->
     cmd = String.concat " " tokens /\ check = false /\ t = None) /\
  Py.split_spaces (String.concat " " tokens) = concat (map Py.split_spaces tokens) /\
  (forall token, In token tokens ->
     (Py.has_space token = false -> Py.split_spaces token = [token]) /\
     (Py.has_space token = true -> Py.split_spaces token <> [token])).
Proof.
  intros Hv. cbv zeta. split.
  { intros cmd check t. apply (run_validated_call args other w _ _ _ Hv). }
  split.
  { rewrite command_tokens. cbn [app]. apply split_spaces_join. }
  intros token _. split.
  - apply split_spaces_no_space.
  - apply split_spaces_space.
Qed.

Lemma command_is_plain_space_join_witness :
  let args := {| lightgbm_exec := "/opt/lightgbm"; data := "/data/my test.tsv";
                 model := None; output := None |} in
  let w := Demo.w 0 in
  validated args w = true /\
  Py.split_spaces (String.concat " " (lightgbm_cli_command (with_output_file args))) =
    ["/opt/lightgbm"; "task=prediction"; "data=/data/my"; "test.tsv";
     "input_model=None"; "verbosity=2"].
Proof.
  cbv zeta.
  match goal with |- ?v = true /\ _ => assert (Hv : v = true) by (vm_compute; reflexivity) end.
  split; [exact Hv|].
  destruct (command_is_plain_space_join _ [] _ Hv) as (_ & Hs & _).
  rewrite Hs. vm_compute. reflexivity.
Defined.

(** C6, counterexample.  Without [--model] the fifth token is
    [verbosity=2]; [input_model=None] is the token before it. *)
Lemma fifth_token_is_verbosity :
  let tokens := lightgbm_cli_command (with_output_file (Demo.args None None)) in
  validated (Demo.args None None) (Demo.w 0) = true /\
  tokens !! 4%nat = Some "verbosity=2" /\
  tokens !! 4%nat <> Some "input_model=None".
Proof. cbv zeta. repeat split; vm_compute; [reflexivity.. | discriminate]. Qed.

(** C6, amended.  When [--model] is omitted the fourth token of the command
    line is exactly [input_model=None], and for a validated argument set
    the command handed to the process runner holds it. *)
Theorem input_model_none_is_fourth_token args other w :
  model args = None ->
  let tokens := lightgbm_cli_command (with_output_file args) in
  tokens !! 3%nat = Some "input_model=None" /\
  (validated args w = true ->
   In (SubprocessRun (Py.join " " tokens) false None) (events (run args other w))).
Proof.
  intros Hm. cbv zeta. split.
  - rewrite command_tokens, Hm. reflexivity.
  - intros Hv. apply (run_validated_call args other w _ _ _ Hv). auto.
Qed.

Lemma input_model_none_is_fourth_token_witness :
  model (Demo.args None (Some "/tmp/out")) = None /\
  lightgbm_cli_command (with_output_file (Demo.args None (Some "/tmp/out"))) !! 3%nat
    = Some "input_model=None".
Proof.
  split; [reflexivity|].
  exact (proj1 (input_model_none_is_fourth_token
                  (Demo.args None (Some "/tmp/out")) [] (Demo.w 0) eq_refl)).
Defined.

(** C3, counterexample.  With [--output=/tmp/x/] the token is
    [output_result=/tmp/x/predictions.txt], which is not the directory
    followed by [/predictions.txt]; with [--output] given as the empty
    string no directory is made and there is no [output_result] token;
    and with [--output] omitted and an executable whose path begins with
    [output_result=], the command line does hold such a token. *)
Lemma output_token_is_not_dir_slash_predictions :
  let slash := Demo.args None (Some "/tmp/x/") in
  let empty := Demo.args None (Some "") in
  let named := {| lightgbm_exec := "output_result=x"; data := "/data/test.tsv";
                  model := None; output := None |} in
  validated slash (Demo.w 0) = true /\
  lightgbm_cli_command (with_output_file slash) !! 5%nat =
    Some "output_result=/tmp/x/predictions.txt" /\
  ~ In ("output_result=" +:+ "/tmp/x/" +:+ "/predictions.txt")
       (lightgbm_cli_command (with_output_file slash)) /\
  validated empty (Demo.w 0) = true /\
  events (prepare_output empty (Demo.w 0)) = [] /\
  ~ In ("output_result=" +:+ "" +:+ "/predictions.txt")
       (lightgbm_cli_command (with_output_file empty)) /\
  In "output_result=x" (lightgbm_cli_command (with_output_file named)) /\
  is_output_result "output_result=x" = true.
Proof.
  cbv zeta. repeat split; try (vm_compute; reflexivity).
  - vm_compute. intros H. repeat destruct H as [H|H]; try discriminate H. exact H.
  - vm_compute. intros H. repeat destruct H as [H|H]; try discriminate H. exact H.
  - vm_compute. now left.
Qed.

(** C3, amended.  If [--output=<dir>] is given, [<dir>] is not empty and
    [os.makedirs] returns, then the directory [<dir>] exists when [run]
    ends, made by [run] if it was absent, and the command line holds as its
    sixth token [output_result=<path>], where [<path>] is
    [os.path.join(<dir>, "predictions.txt")]: [<dir>] followed by
    [/predictions.txt], or by [predictions.txt] alone when [<dir>] already
    ends in a slash.  If [--output] is omitted or empty, nothing is made and
    the command line is the five fixed tokens: a token that begins with
    [output_result=] can only be the executable path itself. *)
Theorem output_option_decides_token args other w :
  let tokens := lightgbm_cli_command (with_output_file args) in
  let r := run args other w in
  (forall dir,
     output args = Some dir -> dir <> "" -> usable_output args w = true ->
     is_dir (fs (final r)) dir = true /\
     (fs w !! dir = None -> In (Mkdir dir) (events r)) /\
     tokens !! 5%nat = Some ("output_result=" +:+ os_path_join dir "predictions.txt") /\
     os_path_join dir "predictions.txt" =
       (if Py.endswith_sep dir then dir +:+ "predictions.txt"
        else dir +:+ "/predictions.txt") /\
     (validated args w = true ->
      In (SubprocessRun (Py.join " " tokens) false None) (events r))) /\
  (Py.truthy (output args) = false ->
     tokens = [ lightgbm_exec args; "task=prediction"; "data=" +:+ data args;
                "input_model=" +:+ Py.str (model args); "verbosity=2" ] /\
     (forall token, In token tokens -> is_output_result token = true ->
        token = lightgbm_exec args) /\
     (forall p, ~ In (Mkdir p) (events r)) /\
     fs (final r) = fs w).
Proof.
  cbv zeta. split.
  - intros dir Ho Hne Huse.
    destruct (prepare_output_spec args w) as (_ & _ & Hdir & _).
    destruct (Hdir dir Ho Hne Huse) as (Hd & Hmk & _).
    rewrite run_final. split; [exact Hd|]. split.
    { intros Habsent. rewrite run_events_split.
      apply in_or_app. left. now apply Hmk. }
    split; [|split].
    + rewrite command_tokens, Ho. now destruct dir.
    + destruct dir as [|c dir]; [congruence|]. apply os_path_join_predictions.
    + intros Hv. apply (run_validated_call args other w _ _ _ Hv). auto.
  - intros Hfalse.
    destruct (prepare_output_spec args w) as (_ & _ & _ & Hp).
    specialize (Hp Hfalse).
    rewrite command_tokens.
    assert (Hnone : match output args with
                    | Some (String _ _ as dir) =>
                        ["output_result=" +:+ os_path_join dir "predictions.txt"]
                    | _ => []
                    end = []).
    { destruct (output args) as [[|c dir]|]; try reflexivity. discriminate. }
    rewrite Hnone, app_nil_r. split; [reflexivity|]. split.
    { intros token Hin Htok. cbn [In] in Hin.
      destruct Hin as [<-|[<-|[<-|[<-|[<-|[]]]]]];
        try reflexivity; discriminate Htok. }
    rewrite run_final, run_events_split, Hp. cbn [ret final events app].
    split; [|reflexivity].
    intros p Hin. destruct (validated args w); [|destruct Hin].
    now apply invoke_events_no_mkdir in Hin.
Qed.

Lemma output_option_decides_token_witness :
  let args := Demo.args None (Some "/tmp/new") in
  let r := run args [] (Demo.w 0) in
  (output args = Some "/tmp/new" /\ "/tmp/new" <> "" /\
   usable_output args (Demo.w 0) = true /\
   fs (Demo.w 0) !! "/tmp/new" = None /\
   validated args (Demo.w 0) = true) /\
  is_dir (fs (final r)) "/tmp/new" = true /\
  In (Mkdir "/tmp/new") (events r) /\
  lightgbm_cli_command (with_output_file args) !! 5%nat =
    Some "output_result=/tmp/new/predictions.txt" /\
  (Py.truthy (output (Demo.args None None)) = false /\
   forall p, ~ In (Mkdir p) (events (run (Demo.args None None) [] (Demo.w 0)))).
Proof.
  cbv zeta.
  assert (Hne : "/tmp/new" <> "") by discriminate.
  assert (Huse : usable_output (Demo.args None (Some "/tmp/new")) (Demo.w 0) = true)
    by (vm_compute; reflexivity).
  assert (Habsent : fs (Demo.w 0) !! "/tmp/new" = None)
    by (vm_compute; reflexivity).
  assert (Hv : validated (Demo.args None (Some "/tmp/new")) (Demo.w 0) = true)
    by (vm_compute; reflexivity).
  split; [auto 6|].
  destruct (output_option_decides_token
              (Demo.args None (Some "/tmp/new")) [] (Demo.w 0)) as [Hgiven _].
  destruct (Hgiven "/tmp/new" eq_refl Hne Huse) as (Hd & Hmk & Htok & _).
  split; [exact Hd|]. split; [exact (Hmk Habsent)|]. split; [exact Htok|].
  destruct (output_option_decides_token
              (Demo.args None None) [] (Demo.w 0)) as [_ Homitted].
  split; [reflexivity|]. exact (proj1 (proj2 (proj2 (Homitted eq_refl)))).
Defined.

(** ** Further properties of [run] *)


Lemma made_dirs_only evs :
  (forall e, In e evs -> exists p, e = Mkdir p) ->
  exists made, evs = map Mkdir made.
Proof.
  induction evs as [|e evs IH]; intros H; [now exists []|].
  destruct (H e (or_introl eq_refl)) as [p ->].
  destruct IH as [made ->]; [intros e He; apply H; now right|].
  now exists (p :: made).
Qed.


Lemma translate_newlines_no_cr s :
  has_carriage_return s = false -> Py.translate_newlines s = s.
Proof.
  induction s as [|c s IH]; [reflexivity|].
  cbn. destruct (Ascii.eqb c Py.CR); [discriminate|].
  cbn. intros H. now rewrite (IH H).
Qed.

Lemma translate_newlines_clean_cons s :
  has_carriage_return (Py.translate_newlines s) = false /\
  forall c, has_carriage_return (Py.translate_newlines (String c s)) = false.
Proof.
  induction s as [|c' s' [IH1 IH2]].
  - split; [reflexivity|]. intros c. cbn.
    destruct (Ascii.eqb c Py.CR) eqn:Ec; cbn; [reflexivity | now rewrite Ec].
  - split; [apply IH2|]. intros c.
    cbn [Py.translate_newlines].
    destruct (Ascii.eqb c Py.CR) eqn:Ec.
    + destruct (Ascii.eqb c' Py.LF); cbn [has_carriage_return];
        change (Ascii.eqb Py.LF Py.CR) with false; cbn [orb];
        [exact IH1 | apply IH2].
    + cbn [has_carriage_return]. rewrite Ec. cbn [orb]. apply IH2.
Qed.

Lemma translate_newlines_clean s :
  has_carriage_return (Py.translate_newlines s) = false.
Proof. apply translate_newlines_clean_cons. Qed.

(** X1.  When the command of a validated invocation exits and what it
    wrote decodes, the texts of its two streams are printed, standard
    output first, then standard error, then the return code, after the exit
    and before the timing block is left; these are the last events of
    [run].  The texts are the decoded bytes with every carriage return, and
    the line feed that may follow it, turned into one line feed: a stream
    is printed as it was written only if it holds no carriage return. *)
Theorem captured_streams_are_printed
    args other w ticks o e n decoded_out decoded_err :
  validated args w = true ->
  os_exec w (command_string args) = Exits ticks o e n ->
  locale_decode w o = Some decoded_out ->
  locale_decode w e = Some decoded_err ->
  (exists before,
     events (run args other w) =
       before ++
       [ ProcessExited (command_string args) n;
         Print ("LightGBM stdout: " +:+ Py.translate_newlines decoded_out);
         Print ("LightGBM stderr: " +:+ Py.translate_newlines decoded_err);
         Print ("LightGBM return code: " +:+ Py.str_int n);
         TimeBlockExit "inferencing" ]) /\
  (has_carriage_return decoded_out = false ->
   Py.translate_newlines decoded_out = decoded_out) /\
  has_carriage_return (Py.translate_newlines decoded_out) = false.
Proof.
  intros Hv Hb Ho He.
  assert (Hdec : decoded_streams (locale_decode w) o e =
                 inr (Py.translate_newlines decoded_out,
                      Py.translate_newlines decoded_err))
    by (apply decoded_streams_inr; now rewrite Ho, He).
  split; [|split; [apply translate_newlines_no_cr|]].
  - rewrite (run_validated args other w Hv). cbn [events].
    rewrite Hb. unfold invoke_events. rewrite Hdec.
    exists (events (prepare_output args w) ++
            [Print "Running .predict()"; TimeBlockEnter "inferencing";
             SubprocessRun (command_string args) false None;
             ProcessStarted (command_string args)]).
    rewrite <- app_assoc. reflexivity.
  - apply translate_newlines_clean.
Qed.

Lemma captured_streams_are_printed_witness :
  let cr := String Py.CR EmptyString in
  let lf := String Py.LF EmptyString in
  let written := "one" +:+ cr +:+ lf +:+ "two" in
  let w := Demo.w_writing written "" 3 in
  let args := Demo.args None None in
  validated args w = true /\
  os_exec w (command_string args) = Exits 3 written "" 3 /\
  locale_decode w written = Some written /\
  In (Print ("LightGBM stdout: " +:+ Py.translate_newlines written))
     (events (run args [] w)) /\
  Py.translate_newlines written = "one" +:+ lf +:+ "two".
Proof.
  cbv zeta.
  set (written := "one" +:+ String Py.CR EmptyString
                  +:+ String Py.LF EmptyString +:+ "two").
  assert (Hv : validated (Demo.args None None) (Demo.w_writing written "" 3) = true)
    by (vm_compute; reflexivity).
  assert (Hb : os_exec (Demo.w_writing written "" 3)
                 (command_string (Demo.args None None))
               = Exits 3 written "" 3) by (vm_compute; reflexivity).
  assert (Ho : locale_decode (Demo.w_writing written "" 3) written = Some written)
    by (vm_compute; reflexivity).
  split; [exact Hv|]. split; [exact Hb|]. split; [exact Ho|].
  split; [|vm_compute; reflexivity].
  destruct (captured_streams_are_printed _ [] _ _ _ _ _ _ "" Hv Hb Ho eq_refl)
    as ((before & ->) & _).
  apply in_or_app. right. find_event.
Defined.

(** X2.  When the launcher cannot start the command of a validated
    invocation, [run] has no handler for it: the launcher's error leaves
    [run], and none of the three result lines is printed. *)
Theorem launch_failure_leaves_run args other w :
  validated args w = true ->
  os_exec w (command_string args) = CannotStart ->
  let r := run args other w in
  out r = Raised (OSError (command_string args)) /\
  (forall e, In e (events r) -> is_result_line e = false) /\
  (forall cmd, ~ In (ProcessStarted cmd) (events r)).
Proof.
  intros Hv Hb. cbv zeta.
  destruct (prepare_output_spec args w) as (Hg & _).
  rewrite (run_validated args other w Hv). cbn [out events]. rewrite Hb.
  split; [reflexivity|]. split.
  - intros e [Hin|Hin]%in_app_or.
    + destruct (grows_mkdir_events _ _ _ _ Hg Hin) as [p ->]. reflexivity.
    + unfold invoke_events in Hin. cbn [app In] in Hin.
      destruct Hin as [<-|[<-|[<-|[<-|[]]]]]; reflexivity.
  - intros cmd [Hin|Hin]%in_app_or.
    + destruct (grows_mkdir_events _ _ _ _ Hg Hin) as [p Hp]. discriminate.
    + unfold invoke_events in Hin. cbn [app In] in Hin.
      destruct Hin as [H|[H|[H|[H|[]]]]]; discriminate.
Qed.

Lemma launch_failure_leaves_run_witness :
  let w := {| fs := Demo.files; os_mkdir := Demo.mkdir;
              os_exec := fun _ => CannotStart;
              locale_decode := Demo.decode; sys_argv := [] |} in
  let args := Demo.args None None in
  validated args w = true /\
  os_exec w (command_string args) = CannotStart /\
  out (run args [] w) = Raised (OSError (command_string args)).
Proof.
  cbv zeta.
  match goal with
  | |- ?v = true /\ _ => assert (Hv : v = true) by (vm_compute; reflexivity)
  end.
  split; [exact Hv|]. split; [reflexivity|].
  exact (proj1 (launch_failure_leaves_run _ [] _ Hv eq_refl)).
Defined.






(** X7.  The directories come first: the events of an invocation are the
    making of directories that were not there, which are there when [run]
    ends, and after that nothing is made; without a non-empty [--output]
    no directory is made at all. *)
Theorem directories_are_made_first args other w :
  let r := run args other w in
  exists made rest,
    events r = map Mkdir made ++ rest /\
    (forall p, ~ In (Mkdir p) rest) /\
    (forall p, In p made ->
       fs w !! p = None /\ is_dir (fs (final r)) p = true) /\
    (Py.truthy (output args) = false -> made = []).
Proof.
  cbv zeta. rewrite run_events_split, run_final.
  destruct (prepare_output_spec args w) as (Hg & _ & _ & Hp).
  destruct (made_dirs_only _ (fun e => grows_mkdir_events _ _ _ e Hg))
    as [made Hmade].
  exists made. eexists. split; [rewrite Hmade; reflexivity|]. split; [|split].
  - intros p. destruct (validated args w); [|intros []].
    apply invoke_events_no_mkdir.
  - intros p Hin. destruct Hg as (_ & _ & _ & _ & _ & Hev).
    destruct (Hev (Mkdir p)) as (q & [= <-] & Hq & Hq').
    + rewrite Hmade. now apply in_map.
    + unfold is_dir. now rewrite Hq'.
  - intros Hf. rewrite (Hp Hf) in Hmade. cbn [ret events] in Hmade.
    now destruct made.
Qed.

Lemma string_length_append (a b : string) :
  String.length (a +:+ b) = (String.length a + String.length b)%nat.
Proof.
  induction a as [|c a IH]; [reflexivity|].
  rewrite append_cons. cbn [String.length]. now rewrite IH.
Qed.

Lemma endswith_sep_append (a b : string) :
  b <> "" -> Py.endswith_sep (a +:+ b) = Py.endswith_sep b.
Proof.
  intros Hb. induction a as [|c a IH]; [reflexivity|].
  assert (Hne : a +:+ b <> "")
    by (destruct a; [exact Hb | rewrite append_cons; discriminate]).
  rewrite append_cons. cbn [Py.endswith_sep].
  destruct (a +:+ b) eqn:E; [congruence | exact IH].
Qed.

(** The predictions file of a non-empty directory is not the directory. *)
Lemma predictions_path_differs c dir :
  os_path_join (String c dir) "predictions.txt" <> String c dir.
Proof.
  rewrite os_path_join_predictions. intros H.
  apply (f_equal String.length) in H.
  destruct (Py.endswith_sep (String c dir));
    rewrite string_length_append in H; cbn in H; lia.
Qed.

Lemma predictions_path_no_sep c dir :
  Py.endswith_sep (os_path_join (String c dir) "predictions.txt") = false.
Proof.
  rewrite os_path_join_predictions.
  destruct (Py.endswith_sep (String c dir));
    now rewrite endswith_sep_append.
Qed.

(** X8.  Lines 63-65 replace [args.output] by the path of the predictions
    file, so they do not bear being applied again to the namespace they
    leave: whenever the second application returns, a directory has the
    name of the predictions file, next to the directory asked for, and
    [predictions.txt] is appended once more. *)
Theorem output_path_nests_when_reapplied args w dir :
  output args = Some dir -> dir <> "" ->
  let file := os_path_join dir "predictions.txt" in
  let r := (once <- prepare_output args ;; prepare_output once) w in
  forall twice, out r = Returned twice ->
    twice = set_output args (Some (file +:+ "/predictions.txt")) /\
    file <> dir /\
    is_dir (fs (final r)) dir = true /\
    is_dir (fs (final r)) file = true.
Proof.
  intros Ho Hne. cbv zeta. intros twice.
  destruct dir as [|c dir]; [congruence|].
  destruct (prepare_output_spec args w) as (_ & Hout & Hdir & _).
  destruct (prepare_output args w) as [[once|e|] w1 ev1] eqn:E1;
    cbn [out final events] in Hout, Hdir.
  2: { rewrite (bind_raised _ _ _ _ _ _ E1). discriminate. }
  2: { rewrite (bind_blocked _ _ _ _ _ E1). discriminate. }
  destruct Hout as [-> Hu].
  destruct (Hdir _ Ho Hne Hu) as (Hd1 & _).
  rewrite (bind_returned _ _ _ _ _ _ E1).
  assert (Ho1 : output (with_output_file args)
                = Some (os_path_join (String c dir) "predictions.txt"))
    by (unfold with_output_file; rewrite Ho; reflexivity).
  pose proof (predictions_path_differs c dir) as Hdiff.
  pose proof (predictions_path_no_sep c dir) as Hsep.
  remember (os_path_join (String c dir) "predictions.txt") as file eqn:Efile.
  assert (Hne' : file <> "").
  { rewrite Efile, os_path_join_predictions.
    destruct (Py.endswith_sep (String c dir)); rewrite append_cons; discriminate. }
  destruct (prepare_output_spec (with_output_file args) w1)
    as (Hg & Hout & Hdir2 & _).
  destruct (prepare_output (with_output_file args) w1) as [[a2|e|] w2 ev2];
    cbn [out final events] in *; try discriminate.
  intros [= <-]. destruct Hout as [-> Hu2].
  destruct (Hdir2 _ Ho1 Hne' Hu2) as (Hd2 & _).
  split; [|split; [exact Hdiff|split; [|exact Hd2]]].
  - unfold with_output_file at 1. rewrite Ho1.
    destruct file as [|c' file']; [congruence|].
    rewrite os_path_join_predictions, Hsep.
    unfold with_output_file. rewrite Ho. reflexivity.
  - unfold is_dir in Hd1 |- *.
    destruct (fs w1 !! String c dir) as [[|]|] eqn:Eq; try discriminate.
    now rewrite (grows_keeps _ _ _ _ _ Hg Eq).
Qed.

Lemma output_path_nests_when_reapplied_witness :
  let args := Demo.args None (Some "/tmp/new") in
  let r := (once <- prepare_output args ;; prepare_output once) (Demo.w 0) in
  out r = Returned (set_output args
                      (Some "/tmp/new/predictions.txt/predictions.txt")) /\
  is_dir (fs (final r)) "/tmp/new/predictions.txt" = true.
Proof.
  cbv zeta.
  assert (Hne : "/tmp/new" <> "") by discriminate.
  assert (Hr : out ((once <- prepare_output (Demo.args None (Some "/tmp/new")) ;;
                     prepare_output once) (Demo.w 0))
               = Returned (set_output (Demo.args None (Some "/tmp/new"))
                             (Some "/tmp/new/predictions.txt/predictions.txt")))
    by (vm_compute; reflexivity).
  destruct (output_path_nests_when_reapplied
              (Demo.args None (Some "/tmp/new")) (Demo.w 0) "/tmp/new"
              eq_refl Hne _ Hr) as (_ & _ & _ & Hd).
  split; [exact Hr | exact Hd].
Defined.

(** ** The command line cut back into tokens *)

Lemma split_pieces_length tokens :
  (length tokens <= length (concat (map Py.split_spaces tokens)))%nat.
Proof.
  induction tokens as [|t tokens IH]; [reflexivity|].
  cbn [map concat]. rewrite length_app.
  pose proof (split_spaces_nonempty t) as Hne.
  destruct (Py.split_spaces t); [congruence|]. cbn. lia.
Qed.

Lemma split_pieces_identity tokens :
  concat (map Py.split_spaces tokens) = tokens <->
  forallb (fun t => negb (Py.has_space t)) tokens = true.
Proof.
  induction tokens as [|t tokens IH]; [easy|].
  cbn [map concat forallb]. rewrite andb_true_iff, negb_true_iff. split.
  - intros H.
    pose proof (split_pieces_length tokens) as Hlen.
    pose proof (f_equal (@length string) H) as Hl.
    rewrite length_app in Hl. cbn [length] in Hl.
    destruct (Py.split_spaces t) as [|piece [|piece' pieces]] eqn:E.
    + now apply split_spaces_nonempty in E.
    + cbn [app] in H. injection H as -> Hrest.
      split; [|now apply IH].
      destruct (Py.has_space t) eqn:Hs; [|reflexivity].
      now apply split_spaces_space in Hs.
    + cbn [length] in Hl. lia.
  - intros [Hs Hall].
    rewrite (split_spaces_no_space t Hs). cbn [app]. f_equal. now apply IH.
Qed.

(** X9.  Cutting the command string at its spaces gives back the tokens it
    was joined from exactly when no token has a space in it: with a space
    in any path the external tool is handed other arguments than the ones
    that were built. *)
Theorem command_splits_back_iff_no_space args :
  let tokens := lightgbm_cli_command (with_output_file args) in
  Py.split_spaces (command_string args) = tokens <->
  forallb (fun t => negb (Py.has_space t)) tokens = true.
Proof.
  cbv zeta. unfold command_string.
  rewrite <- split_pieces_identity.
  rewrite command_tokens. cbn [app]. now rewrite split_spaces_join.
Qed.

(** X10.  Whatever follows a space in the data path reaches the command
    line as a piece of its own: cut at its spaces, the command of an
    invocation whose data path is [path], a space, then [extra] holds
    [extra] among its pieces, as if it were a token that had been built;
    so a data path can bring in an [output_result=] argument when
    [--output] is omitted. *)
Theorem data_path_space_adds_argument args path extra :
  data args = path +:+ " " +:+ extra ->
  Py.has_space extra = false ->
  In extra (Py.split_spaces (command_string args)).
Proof.
  intros Hd Hs.
  unfold command_string. rewrite command_tokens. cbn [app].
  rewrite split_spaces_join. cbn [map concat].
  apply in_or_app. right. apply in_or_app. right. apply in_or_app. left.
  rewrite Hd.
  change ("data=" +:+ path +:+ " " +:+ extra)
    with (("data=" +:+ path) +:+ " " +:+ extra).
  rewrite split_spaces_app. apply in_or_app. right.
  rewrite (split_spaces_no_space extra Hs). now left.
Qed.

Lemma data_path_space_adds_argument_witness :
  let args := {| lightgbm_exec := "/opt/lightgbm";
                 data := "/data/test.tsv output_result=/etc/hosts";
                 model := None; output := None |} in
  Py.truthy (output args) = false /\
  In "output_result=/etc/hosts" (Py.split_spaces (command_string args)).
Proof.
  cbv zeta. split; [reflexivity|].
  exact (data_path_space_adds_argument
           {| lightgbm_exec := "/opt/lightgbm";
              data := "/data/test.tsv output_result=/etc/hosts";
              model := None; output := None |}
           "/data/test.tsv" "output_result=/etc/hosts" eq_refl eq_refl).
Defined.

(** ** The parser declaration and the module initialisation *)

Lemma existsb_eqb_In (x : string) (l : list string) :
  existsb (String.eqb x) l = true <-> In x l.
Proof.
  rewrite existsb_exists. split.
  - intros (y & Hy & ->%String.eqb_eq). exact Hy.
  - intros Hx. exists x. split; [exact Hx | apply String.eqb_refl].
Qed.

Lemma is_among_In flags flag : is_among flags flag = true <-> In flag flags.
Proof. apply existsb_eqb_In. Qed.

Lemma is_among_not_In flags flag : is_among flags flag = false <-> ~ In flag flags.
Proof. rewrite <- is_among_In. now destruct (is_among flags flag). Qed.

Lemma filter_nil_none {A} (p : A -> bool) l :
  List.filter p l = [] -> forall x, In x l -> p x = false.
Proof.
  intros Hf x Hin. destruct (p x) eqn:Hp; [|reflexivity].
  assert (H : In x (List.filter p l)) by (apply List.filter_In; auto).
  rewrite Hf in H. destruct H.
Qed.

Lemma filter_all {A} (p : A -> bool) l :
  (forall x, In x l -> p x = true) -> List.filter p l = l.
Proof.
  induction l as [|x l IH]; [reflexivity|]. intros H. cbn [List.filter].
  rewrite (H x (or_introl eq_refl)), IH; [reflexivity|].
  intros y Hy. apply H. now right.
Qed.

(** The option strings left by [resolve_conflicts] are the ones held that
    are not in conflict, in their order. *)
Lemma resolve_conflicts_flags conflicts held :
  concat (map arg_flags (resolve_conflicts conflicts held)) =
    List.filter (fun flag => negb (is_among conflicts flag))
                (concat (map arg_flags held)).
Proof.
  unfold resolve_conflicts.
  induction held as [|b held IH]; [reflexivity|].
  cbn [flat_map map concat]. rewrite map_app, concat_app, List.filter_app, IH.
  f_equal.
  destruct (List.filter (is_among conflicts) (arg_flags b)) eqn:Hhit.
  - cbn [map concat]. rewrite app_nil_r. symmetry. apply filter_all.
    intros f Hf. now rewrite (filter_nil_none _ _ Hhit f Hf).
  - destruct (List.filter (fun flag => negb (is_among conflicts flag))
                          (arg_flags b)) eqn:Hrest; [reflexivity|].
    cbn [map concat with_flags arg_flags]. now rewrite app_nil_r.
Qed.

(** Options that hold none of the strings in conflict stay as they are. *)
Lemma resolve_conflicts_untouched conflicts held :
  (forall flag, In flag (concat (map arg_flags held)) ->
     is_among conflicts flag = false) ->
  resolve_conflicts conflicts held = held.
Proof.
  unfold resolve_conflicts.
  induction held as [|b held IH]; [reflexivity|]. intros H.
  cbn [flat_map]. rewrite IH.
  - assert (Hb : List.filter (is_among conflicts) (arg_flags b) = []).
    { destruct (List.filter (is_among conflicts) (arg_flags b)) as [|f l] eqn:E;
        [reflexivity|].
      assert (Hin : In f (List.filter (is_among conflicts) (arg_flags b)))
        by (rewrite E; now left).
      apply List.filter_In in Hin as [Hin Hf].
      rewrite H in Hf; [discriminate|].
      cbn [map concat]. apply in_or_app. now left. }
    now rewrite Hb.
  - intros f Hf. apply H. cbn [map concat]. apply in_or_app. now right.
Qed.

Lemma resolve_conflicts_app conflicts held tail :
  (forall flag, In flag (concat (map arg_flags tail)) ->
     is_among conflicts flag = false) ->
  resolve_conflicts conflicts (held ++ tail) =
    resolve_conflicts conflicts held ++ tail.
Proof.
  intros H. unfold resolve_conflicts at 1. rewrite flat_map_app.
  fold (resolve_conflicts conflicts held).
  fold (resolve_conflicts conflicts tail).
  now rewrite (resolve_conflicts_untouched conflicts tail H).
Qed.

(** Adding an option with one option string, under each handler. *)
Lemma add_argument_single_error parser a flag :
  arg_flags a = [flag] ->
  conflict_handler_of parser = conflict_error ->
  add_argument parser a =
    if is_among (option_strings parser) flag
    then inl (ArgumentError [flag])
    else inr {| prog := prog parser; conflict_handler_of := conflict_error;
                arguments := arguments parser ++ [a] |}.
Proof.
  intros Hf Hh. unfold add_argument. rewrite Hf, Hh. cbn [List.filter].
  now destruct (is_among (option_strings parser) flag).
Qed.

Lemma add_argument_single_resolve parser a flag :
  arg_flags a = [flag] ->
  conflict_handler_of parser = conflict_resolve ->
  add_argument parser a =
    inr {| prog := prog parser; conflict_handler_of := conflict_resolve;
           arguments := resolve_conflicts [flag] (arguments parser) ++ [a] |}.
Proof.
  intros Hf Hh. unfold add_argument. rewrite Hf, Hh. cbn [List.filter].
  destruct (is_among (option_strings parser) flag) eqn:E; [reflexivity|].
  rewrite resolve_conflicts_untouched; [reflexivity|].
  intros f Hin. unfold is_among. cbn [existsb].
  destruct (String.eqb_spec f flag) as [->|Hne]; [|reflexivity].
  apply is_among_not_In in E. contradiction.
Qed.

Lemma option_strings_added name handler held tail :
  option_strings {| prog := name; conflict_handler_of := handler;
                    arguments := held ++ tail |} =
    concat (map arg_flags held) ++ concat (map arg_flags tail).
Proof.
  unfold option_strings. cbn [arguments]. now rewrite map_app, concat_app.
Qed.

Lemma is_among_app flags more flag :
  is_among (flags ++ more) flag = (is_among flags flag || is_among more flag)%bool.
Proof. apply existsb_app. Qed.

Lemma filter_twice {A} (p q : A -> bool) l :
  List.filter q (List.filter p l) = List.filter (fun x => (p x && q x)%bool) l.
Proof.
  induction l as [|x l IH]; [reflexivity|]. cbn [List.filter].
  destruct (p x); cbn [List.filter andb]; [|exact IH].
  destruct (q x); now rewrite IH.
Qed.

(** Taking the four option strings away one after the other. *)
Lemma filter_script_flags (l : list string) :
  List.filter (fun flag => negb (is_among ["--output"] flag))
    (List.filter (fun flag => negb (is_among ["--model"] flag))
       (List.filter (fun flag => negb (is_among ["--data"] flag))
          (List.filter (fun flag => negb (is_among ["--lightgbm_exec"] flag)) l)))
  = List.filter (fun flag => negb (is_among script_flags flag)) l.
Proof.
  rewrite !filter_twice. apply List.filter_ext. intros x.
  unfold is_among, script_flags. cbn [existsb].
  destruct (String.eqb x "--lightgbm_exec"), (String.eqb x "--data"),
    (String.eqb x "--model"), (String.eqb x "--output"); reflexivity.
Qed.

(** What [without_script_flags] leaves: the option strings held other
    than the four, in their order; and every option as it is when none of
    the four is held. *)
Lemma without_script_flags_flags held :
  concat (map arg_flags (without_script_flags held)) =
    List.filter (fun flag => negb (is_among script_flags flag))
                (concat (map arg_flags held)).
Proof.
  unfold without_script_flags, script_flags. cbn [fold_left].
  rewrite !resolve_conflicts_flags. apply filter_script_flags.
Qed.

Lemma without_script_flags_untouched held :
  (forall flag, In flag script_flags ->
     ~ In flag (concat (map arg_flags held))) ->
  without_script_flags held = held.
Proof.
  intros Hnone.
  assert (Hone : forall one, In one script_flags ->
                 resolve_conflicts [one] held = held).
  { intros one Hone. apply resolve_conflicts_untouched. intros flag Hin.
    apply is_among_not_In. intros [<-|[]]. exact (Hnone _ Hone Hin). }
  unfold without_script_flags. cbn [fold_left script_flags].
  rewrite (Hone "--lightgbm_exec") by (cbn; auto).
  rewrite (Hone "--data") by (cbn; auto).
  rewrite (Hone "--model") by (cbn; auto).
  apply Hone. cbn; auto.
Qed.

Lemma without_script_flags_declared kept :
  (forall flag, In flag script_flags ->
     ~ In flag (concat (map arg_flags kept))) ->
  without_script_flags (kept ++ declared_options) = kept.
Proof.
  intros Hnone.
  assert (Hone : forall one tail, In one script_flags ->
                 resolve_conflicts [one] (kept ++ tail) =
                 kept ++ resolve_conflicts [one] tail).
  { intros one tail Hone. unfold resolve_conflicts at 1. rewrite flat_map_app.
    fold (resolve_conflicts [one] kept). fold (resolve_conflicts [one] tail).
    rewrite resolve_conflicts_untouched; [reflexivity|].
    intros flag Hin. apply is_among_not_In. intros [<-|[]].
    exact (Hnone _ Hone Hin). }
  unfold without_script_flags. cbn [fold_left script_flags].
  rewrite (Hone "--lightgbm_exec") by (cbn; auto).
  rewrite (Hone "--data") by (cbn; auto).
  rewrite (Hone "--model") by (cbn; auto).
  rewrite (Hone "--output") by (cbn; auto).
  apply app_nil_r.
Qed.

(** [get_arg_parser] on a parser that lets options be taken over: the four
    option strings are taken from the options that hold them, and the four
    options come after what is left. *)
Lemma get_arg_parser_resolve parser :
  conflict_handler_of parser = conflict_resolve ->
  get_arg_parser (Some parser) =
    inr {| prog := prog parser; conflict_handler_of := conflict_resolve;
           arguments := without_script_flags (arguments parser)
                        ++ declared_options |}.
Proof.
  intros Hh. unfold get_arg_parser. cbv zeta.
  rewrite (add_argument_single_resolve _ _ "--lightgbm_exec") by auto.
  cbn [and_then].
  rewrite (add_argument_single_resolve _ _ "--data") by auto.
  cbn [and_then prog arguments].
  rewrite (add_argument_single_resolve _ _ "--model") by auto.
  cbn [and_then prog arguments].
  rewrite (add_argument_single_resolve _ _ "--output") by auto.
  cbn [and_then prog arguments].
  rewrite (resolve_conflicts_app ["--data"])
    by (intros f [<-|[]]; reflexivity).
  rewrite <- app_assoc.
  rewrite (resolve_conflicts_app ["--model"])
    by (intros f [<-|[<-|[]]]; reflexivity).
  rewrite <- app_assoc.
  rewrite (resolve_conflicts_app ["--output"])
    by (intros f [<-|[<-|[<-|[]]]]; reflexivity).
  rewrite <- app_assoc. reflexivity.
Qed.

(** [get_arg_parser] on a parser that refuses conflicts: it raises on the
    first of the four option strings the parser answers to, and adds the
    four options when there is none. *)
Lemma get_arg_parser_error parser :
  conflict_handler_of parser = conflict_error ->
  match get_arg_parser (Some parser) with
  | inr extended =>
      extended = {| prog := prog parser; conflict_handler_of := conflict_error;
                    arguments := arguments parser ++ declared_options |} /\
      (forall flag, In flag script_flags -> ~ In flag (option_strings parser))
  | inl e =>
      exists before flag after,
        script_flags = before ++ flag :: after /\
        (forall earlier, In earlier before ->
           ~ In earlier (option_strings parser)) /\
        In flag (option_strings parser) /\
        e = ArgumentError [flag]
  end.
Proof.
  intros Hh. unfold get_arg_parser. cbv zeta.
  rewrite (add_argument_single_error _ _ "--lightgbm_exec") by auto.
  destruct (is_among (option_strings parser) "--lightgbm_exec")
    eqn:E1; cbn [and_then].
  { exists [], "--lightgbm_exec", ["--data"; "--model"; "--output"].
    split; [reflexivity|]. split; [intros ? []|].
    split; [now apply is_among_In | reflexivity]. }
  rewrite (add_argument_single_error _ _ "--data") by auto.
  cbn [prog arguments]. rewrite option_strings_added, is_among_app.
  fold (option_strings parser).
  destruct (is_among (option_strings parser) "--data")
    eqn:E2; cbn [and_then orb].
  { exists ["--lightgbm_exec"], "--data", ["--model"; "--output"].
    split; [reflexivity|]. split.
    - intros ? [<-|[]]. now apply is_among_not_In.
    - split; [now apply is_among_In | reflexivity]. }
  change (is_among (concat _) "--data") with false. cbn [and_then].
  rewrite (add_argument_single_error _ _ "--model") by auto.
  cbn [prog arguments].
  rewrite <- app_assoc, option_strings_added, is_among_app.
  fold (option_strings parser).
  destruct (is_among (option_strings parser) "--model")
    eqn:E3; cbn [and_then orb].
  { exists ["--lightgbm_exec"; "--data"], "--model", ["--output"].
    split; [reflexivity|]. split.
    - intros ? [<-|[<-|[]]]; now apply is_among_not_In.
    - split; [now apply is_among_In | reflexivity]. }
  change (is_among (concat _) "--model") with false. cbn [and_then].
  rewrite (add_argument_single_error _ _ "--output") by auto.
  cbn [prog arguments].
  rewrite <- !app_assoc, option_strings_added, is_among_app.
  fold (option_strings parser).
  destruct (is_among (option_strings parser) "--output")
    eqn:E4; cbn [and_then orb].
  { exists ["--lightgbm_exec"; "--data"; "--model"], "--output", [].
    split; [reflexivity|]. split.
    - intros ? [<-|[<-|[<-|[]]]]; now apply is_among_not_In.
    - split; [now apply is_among_In | reflexivity]. }
  change (is_among (concat _) "--output") with false. cbn [and_then]. split.
  - rewrite <- ?app_assoc. reflexivity.
  - intros flag [<-|[<-|[<-|[<-|[]]]]]; now apply is_among_not_In.
Qed.

Lemma no_script_flag_filter (flags : list string) :
  (forall flag, In flag script_flags -> ~ In flag flags) ->
  List.filter (fun flag => negb (is_among script_flags flag)) flags = flags.
Proof.
  intros Hnone. apply filter_all. intros flag Hin.
  destruct (is_among script_flags flag) eqn:E; [|reflexivity].
  apply is_among_In in E. now destruct (Hnone flag E).
Qed.

Lemma filtered_has_no_script_flag (flags : list string) flag :
  In flag script_flags ->
  ~ In flag (List.filter (fun flag => negb (is_among script_flags flag)) flags).
Proof.
  intros Hflag [_ Hin]%List.filter_In.
  apply is_among_In in Hflag. now rewrite Hflag in Hin.
Qed.

(** X11.  [get_arg_parser] on a parser it is given.  When it returns, the
    parser has its name and its handler of conflicts, the four options
    come last, in the order of the source, and before them the options
    held, less the four option strings.  On a parser that refuses
    conflicts it returns only if none of the four option strings is held,
    and raises [ArgumentError] on the first that is; so it cannot be
    applied to a parser it has returned.  On a parser that lets option
    strings be taken over it always returns, and applied to a parser it has
    returned it changes nothing. *)
Theorem get_arg_parser_extends parser :
  let others := List.filter (fun flag => negb (is_among script_flags flag))
                            (option_strings parser) in
  match get_arg_parser (Some parser) with
  | inr extended =>
      prog extended = prog parser /\
      conflict_handler_of extended = conflict_handler_of parser /\
      arguments extended =
        without_script_flags (arguments parser) ++ declared_options /\
      option_strings extended = others ++ script_flags /\
      match conflict_handler_of parser with
      | conflict_error =>
          (forall flag, In flag script_flags ->
             ~ In flag (option_strings parser)) /\
          arguments extended = arguments parser ++ declared_options /\
          get_arg_parser (Some extended) =
            inl (ArgumentError ["--lightgbm_exec"])
      | conflict_resolve => get_arg_parser (Some extended) = inr extended
      end
  | inl e =>
      conflict_handler_of parser = conflict_error /\
      exists before flag after,
        script_flags = before ++ flag :: after /\
        (forall earlier, In earlier before ->
           ~ In earlier (option_strings parser)) /\
        In flag (option_strings parser) /\
        e = ArgumentError [flag]
  end.
Proof.
  cbv zeta. destruct (conflict_handler_of parser) eqn:Hh.
  - pose proof (get_arg_parser_error parser Hh) as H.
    destruct (get_arg_parser (Some parser)) as [e|extended];
      [split; [reflexivity | exact H]|].
    destruct H as [-> Hnone]. cbn [prog conflict_handler_of arguments].
    assert (Hsame : without_script_flags (arguments parser) = arguments parser)
      by (apply without_script_flags_untouched; exact Hnone).
    split; [reflexivity|]. split; [reflexivity|].
    split; [now rewrite Hsame|]. split.
    { rewrite option_strings_added. fold (option_strings parser).
      now rewrite (no_script_flag_filter _ Hnone). }
    split; [exact Hnone|]. split; [reflexivity|].
    unfold get_arg_parser. cbv zeta.
    rewrite (add_argument_single_error _ _ "--lightgbm_exec") by auto.
    rewrite option_strings_added, is_among_app.
    change (is_among (concat (map arg_flags declared_options)) "--lightgbm_exec")
      with true.
    now rewrite orb_true_r.
  - rewrite (get_arg_parser_resolve parser Hh).
    cbn [prog conflict_handler_of arguments].
    assert (Hkept : forall flag, In flag script_flags ->
              ~ In flag (concat (map arg_flags
                                   (without_script_flags (arguments parser))))).
    { intros flag Hflag. rewrite without_script_flags_flags.
      now apply filtered_has_no_script_flag. }
    split; [reflexivity|]. split; [reflexivity|]. split; [reflexivity|]. split.
    { rewrite option_strings_added, without_script_flags_flags. reflexivity. }
    rewrite get_arg_parser_resolve by reflexivity.
    cbn [prog arguments].
    now rewrite (without_script_flags_declared _ Hkept).
Qed.

(** The four options, as [get_arg_parser] declares them. *)
Lemma declared_options_are :
  map arg_flags declared_options = map (fun flag => [flag]) script_flags /\
  map arg_required declared_options = [true; true; false; false] /\
  map arg_type_of declared_options =
    [type_str; type_input_file_path; type_input_file_path; type_str] /\
  (forall a, In a declared_options ->
     arg_default a = default_None /\ arg_action_of a = action_store /\
     arg_group a = Some "Input Data").
Proof.
  repeat split; try reflexivity;
    destruct H as [<-|[<-|[<-|[<-|[]]]]]; reflexivity.
Qed.

(** Lines 18-20 by cases on whether [COMMON_ROOT] is on [sys.path]. *)
Lemma extend_sys_path_cases COMMON_ROOT sys_path :
  (In COMMON_ROOT sys_path /\
   extend_sys_path COMMON_ROOT sys_path = (sys_path, []))
  \/
  (~ In COMMON_ROOT sys_path /\
   extend_sys_path COMMON_ROOT sys_path =
     (sys_path ++ [COMMON_ROOT],
      [Print ("Adding " +:+ COMMON_ROOT +:+ " to PYTHONPATH")])).
Proof.
  unfold extend_sys_path.
  destruct (existsb (String.eqb COMMON_ROOT) sys_path) eqn:E; cbn [negb].
  - left. split; [now apply existsb_eqb_In | reflexivity].
  - right. split; [|reflexivity]. intros Hin%existsb_eqb_In. congruence.
Qed.

(** X12.  After lines 18-20 [COMMON_ROOT] is on [sys.path]; the entries
    that were there keep their places, [COMMON_ROOT] being added at the
    end, and only if it was absent; the message is printed exactly when it
    is added. *)
Theorem common_root_is_on_sys_path COMMON_ROOT sys_path :
  let r := extend_sys_path COMMON_ROOT sys_path in
  In COMMON_ROOT (fst r) /\
  (fst r = sys_path /\ snd r = [] /\ In COMMON_ROOT sys_path
   \/
   fst r = sys_path ++ [COMMON_ROOT] /\
   snd r = [Print ("Adding " +:+ COMMON_ROOT +:+ " to PYTHONPATH")] /\
   ~ In COMMON_ROOT sys_path).
Proof.
  cbv zeta. unfold extend_sys_path.
  destruct (existsb (String.eqb COMMON_ROOT) sys_path) eqn:E; cbn [negb fst snd].
  - apply existsb_eqb_In in E. auto.
  - split; [apply in_or_app; right; now left|].
    right. repeat split. intros Hin%existsb_eqb_In. congruence.
Qed.

(** X13.  Loading the module a second time changes nothing and prints
    nothing, and [COMMON_ROOT] is on [sys.path] as many times as before, or
    once if it was not there: no entry is ever doubled by lines 18-20. *)
Theorem extend_sys_path_idempotent COMMON_ROOT sys_path :
  let once := fst (extend_sys_path COMMON_ROOT sys_path) in
  extend_sys_path COMMON_ROOT once = (once, []) /\
  count_occ string_dec once COMMON_ROOT =
    Nat.max 1 (count_occ string_dec sys_path COMMON_ROOT) /\
  (forall x, x <> COMMON_ROOT ->
     count_occ string_dec once x = count_occ string_dec sys_path x).
Proof.
  cbv zeta.
  destruct (extend_sys_path_cases COMMON_ROOT sys_path)
    as [[Hwas ->] | [Hnot ->]]; cbn [fst].
  - split; [|split; [|reflexivity]].
    + unfold extend_sys_path.
      now rewrite (proj2 (existsb_eqb_In COMMON_ROOT sys_path) Hwas).
    + apply (count_occ_In string_dec) in Hwas. lia.
  - split; [|split].
    + unfold extend_sys_path.
      assert (H : existsb (String.eqb COMMON_ROOT) (sys_path ++ [COMMON_ROOT]) = true)
        by (apply existsb_eqb_In, in_or_app; right; now left).
      now rewrite H.
    + rewrite count_occ_app.
      rewrite (proj1 (count_occ_not_In string_dec sys_path COMMON_ROOT) Hnot).
      cbn. now destruct (string_dec COMMON_ROOT COMMON_ROOT).
    + intros x Hx. rewrite count_occ_app. cbn.
      destruct (string_dec COMMON_ROOT x); [congruence | lia].
Qed.
